(** * Transaction signing pipeline of the JavaScript SDK

    A shallow embedding of [src/tx/index.ts] (class [Transaction]) and of
    [src/types/send.ts] (class [SendMsg]), with the facts the specification
    states about them.

    Conventions of the embedding:
    - a JavaScript [number] that holds an integer is a [Z]; a [BN] big number
      is its magnitude, an [N];
    - a [Buffer] is a [list byte];
    - [undefined]/[null] in an optional position is [None];
    - a [throw] is the [Throw] completion, in the code and in what it calls
      (the message, the signer, the getters of a point); methods of
      [Transaction] that read or assign [this] run in a small
      state-and-exception monad [M];
    - objects that are mutated through a shared reference (the coin objects
      of [SendMsg]) live in an explicit store and are named by reference. *)

From Stdlib Require Import ZArith NArith String Ascii List Lia.
From Stdlib.Strings Require Import Byte.
From stdpp Require Import base list strings pretty.
Import ListNotations.

#[local] Open Scope string_scope.
#[local] Open Scope Z_scope.

(* ================================================================== *)
(** * JavaScript basics: completions and truthiness                     *)
(* ================================================================== *)

(** What a [throw] carries.  [Error] and [TypeError] are the two run-time
    classes the code can raise itself; [EncodingError] is the failure the
    specification gives the canonical encoder. *)
Inductive js_error : Type :=
  | Error (message : string)
  | TypeError (message : string)
  | EncodingError.

#[export] Instance js_error_eq_dec : EqDecision js_error.
Proof. solve_decision. Defined.

(** How a call ends. *)
Inductive completion (A : Type) : Type :=
  | Return (a : A)
  | Throw (e : js_error).
Arguments Return {A} a.
Arguments Throw {A} e.

#[export] Instance completion_ret : MRet completion := fun A a => Return a.
#[export] Instance completion_bind : MBind completion :=
  fun A B f c => match c with Return a => f a | Throw e => Throw e end.

#[export] Instance completion_fmap : FMap completion :=
  fun A B f c => match c with Return a => Return (f a) | Throw e => Throw e end.

Definition returns {A} (c : completion A) : bool :=
  match c with Return _ => true | Throw _ => false end.

(** [ToBoolean]: the test behind [!x], [x || d] and [if (x)]. *)
Class Truthy (A : Type) := truthy : A -> bool.

#[export] Instance string_truthy : Truthy string :=
  fun s => match s with EmptyString => false | String _ _ => true end.
#[export] Instance number_truthy : Truthy Z := fun n => negb (n =? 0).
(** Arrays are objects: every array, the empty one included, is truthy. *)
#[export] Instance array_truthy {A} : Truthy (list A) := fun _ => true.
(** An optional value is falsy when it is [undefined]. *)
#[export] Instance optional_truthy {A} `{Truthy A} : Truthy (option A) :=
  fun o => match o with Some a => truthy a | None => false end.

(** [x || d] *)
Definition js_or {A} `{Truthy A} (x : option A) (d : A) : A :=
  match x with
  | Some a => if truthy a then a else d
  | None => d
  end.

(** [Number.prototype.toString()] on a safe integer (an account number,
    a sequence, a source): its decimal digits, with a minus sign when
    negative. *)
Definition Number_toString (n : Z) : string := pretty n.

(* ================================================================== *)
(** * Buffers                                                           *)
(* ================================================================== *)

Definition byte_of_N (n : N) : byte := byte_of_ascii (ascii_of_N n).

Module Buffer.

Definition t : Type := list byte.

Definition hex_digit (n : N) : ascii :=
  nth (N.to_nat n) (list_ascii_of_string "0123456789abcdef") "0"%char.

(** [buf.toString("hex")]: two lower-case digits per byte. *)
Fixpoint toString_hex (b : t) : string :=
  match b with
  | [] => EmptyString
  | x :: rest =>
      String (hex_digit (Byte.to_N x / 16))
        (String (hex_digit (Byte.to_N x mod 16)) (toString_hex rest))
  end.

Definition is_lower_hex_digit (c : ascii) : bool :=
  let n := N_of_ascii c in
  (((48 <=? n) && (n <=? 57)) || ((97 <=? n) && (n <=? 102)))%N.

(** Text made of the digits [0-9a-f] only. *)
Definition lower_hex_text (s : string) : bool :=
  forallb is_lower_hex_digit (list_ascii_of_string s).

Definition hex_value (c : ascii) : option N :=
  let n := N_of_ascii c in
  if ((48 <=? n) && (n <=? 57))%N then Some (n - 48)%N
  else if ((97 <=? n) && (n <=? 102))%N then Some (n - 87)%N
  else if ((65 <=? n) && (n <=? 70))%N then Some (n - 55)%N
  else None.

(** [Buffer.from(s, "hex")]: decodes digit pairs and stops at the first
    pair that is not hexadecimal; a trailing single digit is dropped. *)
Fixpoint from_hex (s : string) : t :=
  match s with
  | String a (String b rest) =>
      match hex_value a, hex_value b with
      | Some h, Some l => byte_of_N (16 * h + l) :: from_hex rest
      | _, _ => []
      end
  | _ => []
  end.

(** [Buffer.from(s)] of a string of 7-bit characters. *)
Definition from_string (s : string) : t := list_byte_of_string s.

Definition concat (parts : list t) : t := List.concat parts.

(** The unsigned integer a buffer spells in big-endian order. *)
Definition be_value (b : t) : N :=
  fold_left (fun acc x => (256 * acc + Byte.to_N x)%N) b 0%N.

End Buffer.

(* ================================================================== *)
(** * Big numbers (bn.js) and curve points (elliptic)                   *)
(* ================================================================== *)

Module BN.

Abbreviation t := N (only parsing).

Definition isOdd (n : t) : bool := N.odd n.

(** Number of bytes of the magnitude. *)
Definition byteLength (n : t) : nat := N.to_nat ((N.size n + 7) / 8).

(** [n.toArrayLike(Buffer, "be", len)]: the magnitude in [len] bytes,
    most significant first, padded with zeros; bn.js asserts that the
    number fits. *)
Definition be_bytes (len : nat) (n : t) : Buffer.t :=
  map (fun i => byte_of_N (N.shiftr n (8 * N.of_nat i) mod 256))
      (rev (seq 0 len)).

Definition toArrayLike_be (len : nat) (n : t) : completion Buffer.t :=
  if (byteLength n <=? len)%nat then Return (be_bytes len n)
  else Throw (Error "byte array longer than desired length").

End BN.

(** [curve.base.BasePoint] (elliptic), by its two getters.  A call of a
    getter returns a coordinate, or nothing, or throws; the code allows for
    a missing [y] ([y && ...]) and reads [x] without a test. *)
Record BasePoint : Type := {
  getX : completion (option BN.t);
  getY : completion (option BN.t)
}.

(** The identity (the point at infinity) of elliptic holds [null] for both
    coordinates, and its getters, [this.x.fromRed()] and
    [this.y.fromRed()], throw the [TypeError] of a property access on
    [null] (the message is the engine's). *)
Definition identity_point : BasePoint :=
  {| getX := Throw (TypeError "Cannot read property 'fromRed' of null");
     getY := Throw (TypeError "Cannot read property 'fromRed' of null") |}.

(** The format byte of the SEC1 compressed form of a point with this [y]. *)
Definition compressed_tag (y : N) : byte := if N.odd y then x03 else x02.

(* ================================================================== *)
(** * The canonical encoder ([src/encoder], not part of the sources)   *)
(* ================================================================== *)

Module UVarInt.

(** Modelled from the spec: the rounds of [UVarInt.encode]; seven bits a
    byte, the low ones first, the high bit set on every byte but the
    last. *)
Fixpoint encode_go (fuel : nat) (n : N) : Buffer.t :=
  match fuel with
  | O => []
  | S fuel' =>
      if (n <? 128)%N then [byte_of_N n]
      else byte_of_N (N.lor (N.land n 127) 128)
             :: encode_go fuel' (N.shiftr n 7)
  end.

(** Modelled from the spec: [UVarInt.encode] of [src/encoder/varint] is
    missing.  "a base-128 continuation-bit varint, least-significant group
    first", "continuation bit in the high bit of each byte".  Every round
    drops seven bits, so the bit size of [n] (plus one for zero) is enough
    fuel. *)
Definition encode (n : N) : Buffer.t :=
  encode_go (S (N.to_nat (N.size n))) n.

End UVarInt.

(** Plain values handed to the encoder. *)
#[warnings="-register-all"]
Inductive jsval : Type :=
  | JUndefined
  | JNull
  | JString (s : string)
  | JNumber (n : Z)
  | JArray (items : list jsval)
  | JObject (fields : list (string * jsval)).

Module encoder.

(** Modelled from the spec: [encodeBinaryByteArray] of [src/encoder] is
    missing.  "the Canonical Encoder's length-prefix rule (varint-encoded
    length followed by the bytes)". *)
Definition encodeBinaryByteArray (bytes : Buffer.t) : Buffer.t :=
  Buffer.concat [UVarInt.encode (N.of_nat (List.length bytes)); bytes].

(** Stable insertion of a field by key, ascending. *)
Fixpoint insert_field (f : string * jsval) (fs : list (string * jsval))
  : list (string * jsval) :=
  match fs with
  | [] => [f]
  | g :: rest =>
      if String.leb g.1 f.1 then g :: insert_field f rest
      else f :: g :: rest
  end.

Definition sort_fields (fs : list (string * jsval)) : list (string * jsval) :=
  fold_left (fun acc f => insert_field f acc) fs [].

(** Modelled from the spec: "keys sorted lexicographically at every
    nesting level". *)
Fixpoint sortObject (v : jsval) : jsval :=
  match v with
  | JArray items => JArray (map sortObject items)
  | JObject fields =>
      JObject (sort_fields (map (fun f => (f.1, sortObject f.2)) fields))
  | _ => v
  end.

Definition double_quote : ascii := ascii_of_N 34.

Definition escape_char (c : ascii) : string :=
  if Ascii.eqb c double_quote then
    String "\"%char (String double_quote EmptyString)
  else if Ascii.eqb c "\"%char then
    String "\"%char (String "\"%char EmptyString)
  else String c EmptyString.

Fixpoint escape (s : string) : string :=
  match s with
  | EmptyString => EmptyString
  | String c rest => escape_char c ++ escape rest
  end.

Definition quote (s : string) : string :=
  String double_quote (escape s ++ String double_quote EmptyString).

Fixpoint join (sep : string) (parts : list string) : string :=
  match parts with
  | [] => EmptyString
  | [p] => p
  | p :: rest => p ++ sep ++ join sep rest
  end.

Definition sequence_completions {A} (cs : list (completion A))
  : completion (list A) :=
  fold_right (fun c acc => a ← c; l ← acc; mret (a :: l)) (mret []) cs.

(** Modelled from the spec: the text of a value, without whitespace,
    the fields in the order they are held.  A value outside the supported
    set ([undefined]) is an [EncodingError]. *)
Fixpoint render (v : jsval) : completion string :=
  match v with
  | JUndefined => Throw EncodingError
  | JNull => Return "null"
  | JString s => Return (quote s)
  | JNumber n => Return (Number_toString n)
  | JArray items =>
      parts ← sequence_completions (map render items);
      mret ("[" ++ join "," parts ++ "]")
  | JObject fields =>
      parts ← sequence_completions
                (map (fun f => r ← render f.2; mret (quote f.1 ++ ":" ++ r))
                     fields);
      mret ("{" ++ join "," parts ++ "}")
  end.

(** Modelled from the spec: [convertObjectToSignBytes] of [src/encoder]
    is missing.  "a deterministic, whitespace-free textual encoding of
    nested plain values (objects, arrays, strings, the literal null,
    decimal-string numbers) with keys sorted lexicographically at every
    nesting level and no insignificant whitespace"; "fails with
    EncodingError if given a value outside the supported type set (e.g.
    ... undefined)". *)
Definition convertObjectToSignBytes (obj : jsval) : completion Buffer.t :=
  text ← render (sortObject obj);
  mret (Buffer.from_string text).

End encoder.

#[export] Instance jsval_truthy : Truthy jsval :=
  fun v => match v with
           | JUndefined | JNull => false
           | JString s => truthy s
           | JNumber n => truthy n
           | JArray _ | JObject _ => true
           end.

(** Field access on a plain object; [None] when the value has no such
    field. *)
Definition js_get (key : string) (v : jsval) : option jsval :=
  match v with
  | JObject fields => snd <$> List.find (fun f => String.eqb f.1 key) fields
  | _ => None
  end.

(* ================================================================== *)
(** * Types of [src/types] used by the transaction                      *)
(* ================================================================== *)

(** The message capability ([BaseMsg]): a signable projection and a wire
    projection.  A call of [getMsg] returns the wire form or throws (that
    of [SendMsg] does, on an address that does not decode).  The wire form
    is only handed on to [marshalBinary], so its type is left open. *)
Record BaseMsg (Wire : Type) : Type := {
  getSignMsg : jsval;
  getMsg : completion Wire
}.
Arguments getSignMsg {Wire} _.
Arguments getMsg {Wire} _.

(** A message is an object, hence truthy. *)
#[export] Instance BaseMsg_truthy {Wire} : Truthy (BaseMsg Wire) :=
  fun _ => true.

Module StdSignMsg.
(** The constructor's parameter object; every property may be missing. *)
Record t (Wire : Type) : Type := {
  chainId : option string;
  accountNumber : option Z;
  sequence : option Z;
  msg : option (BaseMsg Wire);
  memo : option string;
  source : option Z
}.
Arguments chainId {Wire} _.
Arguments accountNumber {Wire} _.
Arguments sequence {Wire} _.
Arguments msg {Wire} _.
Arguments memo {Wire} _.
Arguments source {Wire} _.

(** [{}] *)
Definition empty {Wire} : t Wire :=
  {| chainId := None; accountNumber := None; sequence := None;
     msg := None; memo := None; source := None |}.
End StdSignMsg.

Module StdSignature.
Record t : Type := {
  pub_key : Buffer.t;
  signature : Buffer.t;
  account_number : Z;
  sequence : Z
}.
End StdSignature.

Module TxAminoPrefix.
(** The members of the enumeration that the sources name. *)
Inductive t : Type := MsgSend | StdTx.
End TxAminoPrefix.

Module StdTx.
Record t (Wire : Type) : Type := {
  msg : list Wire;
  signatures : list StdSignature.t;
  memo : option string;
  source : Z;
  data : string;
  aminoPrefix : TxAminoPrefix.t
}.
Arguments msg {Wire} _.
Arguments signatures {Wire} _.
Arguments memo {Wire} _.
Arguments source {Wire} _.
Arguments data {Wire} _.
Arguments aminoPrefix {Wire} _.
End StdTx.

(** [src/crypto], the external signer capability.  Either call returns
    or throws (a private key that is no key is refused). *)
Class Crypto : Type := {
  generateSignature : string -> Buffer.t -> completion Buffer.t;
  generatePubKey : Buffer.t -> completion BasePoint
}.

(** [encoder.marshalBinary], the wire renderer. *)
Class WireEncoder (Wire : Type) : Type :=
  marshalBinary : StdTx.t Wire -> completion Buffer.t.

(* ================================================================== *)
(** * [class Transaction] ([src/tx/index.ts])                           *)
(* ================================================================== *)

Module Transaction.

Record t (Wire : Type) : Type := {
  sequence : Z;
  account_number : Z;
  chain_id : string;
  msg : BaseMsg Wire;
  memo : option string;
  source : Z;
  signatures : list StdSignature.t
}.
Arguments sequence {Wire} _.
Arguments account_number {Wire} _.
Arguments chain_id {Wire} _.
Arguments msg {Wire} _.
Arguments memo {Wire} _.
Arguments source {Wire} _.
Arguments signatures {Wire} _.

(** What a method does to the outside, in order. *)
Inductive event : Type :=
  | Call_generateSignature (signBytesHex : string) (privKeyBuf : Buffer.t)
  | Call_generatePubKey (privKeyBuf : Buffer.t)
  | Console_log (line : string).

(** The state a method runs in: the receiver and the effects so far. *)
Record world (Wire : Type) : Type := {
  this : t Wire;
  events : list event
}.
Arguments this {Wire} _.
Arguments events {Wire} _.

(** A method body: it ends in a completion and leaves a state, also
    when it throws. *)
Definition M (Wire A : Type) : Type :=
  world Wire -> completion A * world Wire.

#[export] Instance M_ret {Wire} : MRet (M Wire) := fun A a w => (Return a, w).
#[export] Instance M_bind {Wire} : MBind (M Wire) :=
  fun A B f m w =>
    match m w with
    | (Return a, w') => f a w'
    | (Throw e, w') => (Throw e, w')
    end.

Section Methods.
Context {Wire : Type} {renderer : WireEncoder Wire} {signer : Crypto}.

Definition throw {A} (e : js_error) : M Wire A := fun w => (Throw e, w).

Definition lift {A} (c : completion A) : M Wire A := fun w => (c, w).

Definition get_this : M Wire (t Wire) := fun w => (Return (this w), w).

Definition emit (e : event) : M Wire unit :=
  fun w => (Return tt, {| this := this w; events := events w ++ [e] |}).

(** [this.signatures = sigs] *)
Definition set_signatures (sigs : list StdSignature.t) : M Wire unit :=
  fun w =>
    let o := this w in
    (Return tt,
     {| this := {| sequence := sequence o;
                   account_number := account_number o;
                   chain_id := chain_id o;
                   msg := msg o;
                   memo := memo o;
                   source := source o;
                   signatures := sigs |};
        events := events w |}).

(** [constructor(data: StdSignMsg)] *)
Definition constructor (data : option (StdSignMsg.t Wire))
  : completion (t Wire) :=
  let data := default StdSignMsg.empty data in
  match StdSignMsg.chainId data with
  | None => Throw (Error "chain id should not be null")
  | Some chainId =>
      if negb (truthy chainId) then
        Throw (Error "chain id should not be null")
      else
        match StdSignMsg.msg data with
        | None => Throw (Error "Transaction type should not be null")
        | Some m =>
            if negb (truthy m) then
              Throw (Error "Transaction type should not be null")
            else
              Return {| sequence := js_or (StdSignMsg.sequence data) 0;
                        account_number :=
                          js_or (StdSignMsg.accountNumber data) 0;
                        chain_id := chainId;
                        msg := m;
                        memo := StdSignMsg.memo data;
                        source := js_or (StdSignMsg.source data) 0;
                        signatures := [] |}
        end
  end.

(** The object literal [signMsg] of [getSignBytes]; a property whose
    value is [undefined] is held as such. *)
Definition signMsg (o : t Wire) (m : jsval) : jsval :=
  JObject
    [ ("account_number", JString (Number_toString (account_number o)));
      ("chain_id", JString (chain_id o));
      ("data", JNull);
      ("memo", from_option JString JUndefined (memo o));
      ("msgs", JArray [m]);
      ("sequence", JString (Number_toString (sequence o)));
      ("source", JString (Number_toString (source o))) ].

(** [getSignBytes(msg?: SignMsg)] *)
Definition getSignBytes (m : option jsval) : M Wire Buffer.t :=
  o ← get_this;
  let m := js_or m (getSignMsg (msg o)) in
  lift (encoder.convertObjectToSignBytes (signMsg o m)).

(** [_serializePubKey(unencodedPubKey)]; it reads nothing of [this]. *)
Definition _serializePubKey (unencodedPubKey : BasePoint)
  : completion Buffer.t :=
  let format := 2 in
  y ← getY unencodedPubKey;
  x ← getX unencodedPubKey;
  let format :=
    if from_option BN.isOdd false y then Z.lor format 1 else format in
  match x with
  | None => Throw (TypeError "Cannot read property 'toArrayLike' of null")
  | Some x =>
      xBz ← BN.toArrayLike_be 32 x;
      let pubBz := Buffer.concat [UVarInt.encode (Z.to_N format); xBz] in
      let pubBz := encoder.encodeBinaryByteArray pubBz in
      let pubBz := Buffer.concat [Buffer.from_hex "EB5AE987"; pubBz] in
      mret pubBz
  end.

(** [addSignature(pubKey, signature)]; the methods that return [this]
    for chaining return nothing here, the receiver is in the state. *)
Definition addSignature (pubKey : BasePoint) (signature : Buffer.t)
  : M Wire unit :=
  pubKeyBuf ← lift (_serializePubKey pubKey);
  o ← get_this;
  set_signatures
    [ {| StdSignature.pub_key := pubKeyBuf;
         StdSignature.signature := signature;
         StdSignature.account_number := account_number o;
         StdSignature.sequence := sequence o |} ].

(** [sign(privateKey, msg?)]; the two calls into [crypto] and the line
    written to the console are recorded as they happen. *)
Definition sign (privateKey : string) (m : option jsval) : M Wire unit :=
  if negb (truthy privateKey) then
    throw (Error "private key should not be null")
  else
    signBytes ← getSignBytes m;
    let privKeyBuf := Buffer.from_hex privateKey in
    let text := Buffer.toString_hex signBytes in
    _ ← emit (Call_generateSignature text privKeyBuf);
    signature ← lift (generateSignature text privKeyBuf);
    _ ← emit (Console_log ("s: " ++ Buffer.toString_hex signature));
    _ ← emit (Call_generatePubKey privKeyBuf);
    pubKey ← lift (generatePubKey privKeyBuf);
    addSignature pubKey signature.

(** [serialize()] *)
Definition serialize : M Wire string :=
  o ← get_this;
  if negb (truthy (signatures o)) then
    throw (Error "need signature")
  else
    wire ← lift (getMsg (msg o));
    let stdTx :=
      {| StdTx.msg := [wire];
         StdTx.signatures := signatures o;
         StdTx.memo := memo o;
         StdTx.source := source o;
         StdTx.data := EmptyString;
         StdTx.aminoPrefix := TxAminoPrefix.StdTx |} in
    bytes ← lift (marshalBinary stdTx);
    mret (Buffer.toString_hex bytes).

End Methods.

End Transaction.

(** Names for what the methods build, to state facts with. *)
Module Built.
Import Transaction.

(** The receiver after [this.signatures = sigs]. *)
Definition with_signatures {Wire} (o : t Wire) (sigs : list StdSignature.t)
  : t Wire :=
  {| sequence := sequence o;
     account_number := account_number o;
     chain_id := chain_id o;
     msg := msg o;
     memo := memo o;
     source := source o;
     signatures := sigs |}.

(** The entry [addSignature] makes. *)
Definition entry {Wire} (o : t Wire) (pubKeyBuf signature : Buffer.t)
  : StdSignature.t :=
  {| StdSignature.pub_key := pubKeyBuf;
     StdSignature.signature := signature;
     StdSignature.account_number := account_number o;
     StdSignature.sequence := sequence o |}.

(** The envelope [serialize] hands to the wire renderer, around the wire
    form [wire] of the message. *)
Definition stdTx {Wire} (o : t Wire) (wire : Wire) : StdTx.t Wire :=
  {| StdTx.msg := [wire];
     StdTx.signatures := signatures o;
     StdTx.memo := memo o;
     StdTx.source := source o;
     StdTx.data := EmptyString;
     StdTx.aminoPrefix := TxAminoPrefix.StdTx |}.

(** What [sign] does to the outside, in order, for these sign bytes:
    the call of the signer, and, once that has returned [signature], the
    line on the console and the call of the key derivation. *)
Definition signer_called (signBytes : Buffer.t) (privateKey : string)
  : list event :=
  [ Call_generateSignature (Buffer.toString_hex signBytes)
      (Buffer.from_hex privateKey) ].

Definition sign_events (signBytes : Buffer.t) (privateKey : string)
    (signature : Buffer.t) : list event :=
  [ Call_generateSignature (Buffer.toString_hex signBytes)
      (Buffer.from_hex privateKey);
    Console_log ("s: " ++ Buffer.toString_hex signature);
    Call_generatePubKey (Buffer.from_hex privateKey) ].

(** What [serialize] returns once the guard is passed: the wire form of
    the message, the envelope rendered, the bytes as hex text. *)
Definition serialized {Wire} {renderer : WireEncoder Wire} (o : t Wire)
  : completion string :=
  wire ← getMsg (msg o);
  bytes ← marshalBinary (stdTx o wire);
  mret (Buffer.toString_hex bytes).
End Built.

(** The error names of the specification, as the [throw] sites of the
    code spell them.  The code has no error classes of its own: the
    missing-field, missing-key and missing-signature failures are plain
    [Error]s told apart by their message. *)
Definition MissingFieldError (e : js_error) : Prop :=
  e = Error "chain id should not be null"
  \/ e = Error "Transaction type should not be null".

Definition MissingKeyError (e : js_error) : Prop :=
  e = Error "private key should not be null".

Definition MissingSignatureError (e : js_error) : Prop :=
  e = Error "need signature".

(** No [throw] of the code spells the invalid-point error:
    [_serializePubKey] has no [throw] and tests nothing about the point.
    At most the name could stand for an error object made by a
    [throw new Error(...)], as the other three do; a [TypeError] that the
    engine raises is not one. *)
Definition InvalidPointError (e : js_error) : Prop :=
  exists message, e = Error message.

(** A client of a [Transaction]: any sequence of calls of its public
    methods, going on after a call that threw. *)
Module Client.
Import Transaction.

Inductive call : Type :=
  | GetSignBytes (m : option jsval)
  | AddSignature (pubKey : BasePoint) (signature : Buffer.t)
  | Sign (privateKey : string) (m : option jsval)
  | Serialize.

Section Run.
Context {Wire : Type} {renderer : WireEncoder Wire} {signer : Crypto}.

Definition perform (c : call) (w : world Wire) : world Wire :=
  match c with
  | GetSignBytes m => (getSignBytes m w).2
  | AddSignature pubKey signature => (addSignature pubKey signature w).2
  | Sign privateKey m => (sign privateKey m w).2
  | Serialize => (serialize w).2
  end.

Definition run (cs : list call) (w : world Wire) : world Wire :=
  fold_left (fun w c => perform c w) cs w.

(** [new Transaction(data)] followed by the calls [cs]. *)
Definition session (data : option (StdSignMsg.t Wire)) (cs : list call)
  : completion (world Wire) :=
  o ← constructor data;
  mret (run cs {| this := o; events := [] |}).
End Run.
End Client.

(* ================================================================== *)
(** * [class SendMsg] ([src/types/send.ts])                             *)
(* ================================================================== *)

(** [Number(text)] for the decimal text of an integer: the nearest
    double, ties to even.  Integers of magnitude below [2^53] are doubles
    already.  (Overflow to [Infinity], beyond [2^1024], is not modelled.) *)
Definition Number_of_integer (z : Z) : Z :=
  let m := Z.abs z in
  if m <? 2 ^ 53 then z
  else
    let e := Z.log2 m - 52 in
    let q := Z.shiftr m e in
    let r := Z.land m (Z.ones e) in
    let half := Z.shiftl 1 (e - 1) in
    let q' := if r <? half then q
              else if half <? r then q + 1
              else if Z.even q then q else q + 1 in
    Z.sgn z * Z.shiftl q' e.

Definition MAX_SAFE_INTEGER : Z := 2 ^ 53 - 1.

(** [Big] (big.js), for the integers: decimal numbers of any size, added
    without rounding. *)
Module Big.

Abbreviation t := Z (only parsing).

(** Whether the decimal [c] is read as the number [n]: [Number(c)] is
    [n]. *)
Definition reads_as (n c : Z) : bool :=
  (0 <? c) && (Number_of_integer c =? n).

(** Of the consecutive multiples [lo] and [hi] of [p], the one nearer to
    [n]; at the same distance, the one whose last digit is even. *)
Definition nearer (n p lo hi : Z) : Z :=
  if n - lo <? hi - n then lo
  else if hi - n <? n - lo then hi
  else if Z.even (lo / p) then lo else hi.

(** The decimal that [String(n)] spells for a number [n] above zero that
    holds an integer ([Number::toString]): digits followed by [j] zeros,
    the digits as few as possible (so the zeros as many as possible,
    starting from [j]) for a text that is read as [n]; of two such
    decimals the nearer to [n].  The multiples of [10^j] that can be read
    as [n] lie on either side of [n]. *)
Fixpoint shortest (n : Z) (j : nat) : Z :=
  let p := 10 ^ Z.of_nat j in
  let lo := n / p * p in
  let hi := lo + p in
  match reads_as n lo, reads_as n hi with
  | true, true => nearer n p lo hi
  | true, false => lo
  | false, true => hi
  | false, false =>
      match j with
      | O => n
      | S j' => shortest n j'
      end
  end.

(** [new Big(n)] for a number [n]: big.js reads the number through its
    text, [String(n)].  Up to [2^53] the text has every digit of the
    integer; beyond, it has the shortest digits that are read as [n]
    again, and zeros: [2^60 = 1152921504606846976] has the text
    [1152921504606847000].  A number has no more decimal digits than
    bits. *)
Definition of_number (n : Z) : t :=
  Z.sgn n * shortest (Z.abs n) (Z.to_nat (Z.log2 (Z.abs n))).

(** [x.plus(n)] for a number [n]: [n] is made a [Big], the sum is
    exact. *)
Definition plus (x : t) (n : Z) : t := x + of_number n.

End Big.

Module Coin.
Record t : Type := { denom : string; amount : Z }.
End Coin.

(** Coin objects are shared and assigned to through references, so they
    live in a store; a reference is the index of its object.  The arrays
    are held by value: the only array the code writes to is the one it
    has just created for the input. *)
Abbreviation ref := nat (only parsing).
Abbreviation store := (list Coin.t) (only parsing).

Module SignInputOutput.
Record t : Type := { address : string; coins : list ref }.
End SignInputOutput.

Module SignedSend.
Record t : Type := {
  inputs : list SignInputOutput.t;
  outputs : list SignInputOutput.t
}.
End SignedSend.

Module SendMsg.

Record t : Type := {
  sender : string;
  outputs : list SignInputOutput.t
}.

(** [inputsCoins.find(c => c.denom === denom)] *)
Definition find_denom (h : store) (inputsCoins : list ref) (denom : string)
  : option ref :=
  List.find
    (fun c => from_option (fun o => String.eqb (Coin.denom o) denom) false
                          (h !! c))
    inputsCoins.

(** The body of the [forEach] callback of [calInputCoins], for the coin
    object [coin] points to.  References of a running program always
    point to an object; the model leaves the state alone otherwise. *)
Definition calInputCoins_step (st : store * list ref) (coin : ref)
  : store * list ref :=
  let '(h, inputsCoins) := st in
  match h !! coin with
  | None => st
  | Some c =>
      match find_denom h inputsCoins (Coin.denom c) with
      | Some existCoin =>
          match h !! existCoin with
          | Some e =>
              let existAmount := Big.of_number (Coin.amount e) in
              (* [Number(big.toString())]: the text of a [Big] spells its
                 value *)
              (<[existCoin :=
                   {| Coin.denom := Coin.denom e;
                      Coin.amount :=
                        Number_of_integer
                          (Big.plus existAmount (Coin.amount c)) |}]> h,
               inputsCoins)
          | None => st
          end
      | None =>
          (* [inputsCoins.push({ ...coin })]: a new object *)
          ((h ++ [c])%list, (inputsCoins ++ [List.length h])%list)
      end
  end.

(** [calInputCoins(inputsCoins, coins)], on the store and the array
    [inputsCoins]. *)
Definition calInputCoins (st : store * list ref) (coins : list ref)
  : store * list ref :=
  fold_left calInputCoins_step coins st.

(** [getSignMsg()]: the structure returned and the store it leaves. *)
Definition getSignMsg (o : t) (h : store) : SignedSend.t * store :=
  let st :=
    fold_left (fun st item => calInputCoins st (SignInputOutput.coins item))
              (outputs o) (h, []) in
  ({| SignedSend.inputs :=
        [ {| SignInputOutput.address := sender o;
             SignInputOutput.coins := st.2 |} ];
      SignedSend.outputs := outputs o |},
   st.1).

(** Every coin reference of the outputs, in the order [getSignMsg]
    visits them. *)
Definition output_coins (o : t) : list ref :=
  List.concat (map SignInputOutput.coins (outputs o)).

End SendMsg.

(** The objects a list of references points to. *)
Definition deref (h : store) (rs : list ref) : list Coin.t :=
  omap (fun r => h !! r) rs.

(** Sum of the amounts of some coins, and of those of one denom. *)
Definition grand_total (cs : list Coin.t) : Z :=
  fold_right Z.add 0 (map Coin.amount cs).

Definition total (denom : string) (cs : list Coin.t) : Z :=
  grand_total (filter (fun c => Coin.denom c = denom) cs).

(** Sum of the magnitudes of the amounts. *)
Definition magnitude (cs : list Coin.t) : Z :=
  fold_right Z.add 0 (map (fun c => Z.abs (Coin.amount c)) cs).

(** The amount [calInputCoins] leaves in an input coin that holds [held]
    when it meets a coin of its denom, of amount [amount]. *)
Definition added (held amount : Z) : Z :=
  Number_of_integer (Big.plus (Big.of_number held) amount).

(** The amounts of the coins of one denom, in order, and what adding them
    one after the other to the first gives. *)
Definition amounts_of (denom : string) (cs : list Coin.t) : list Z :=
  Coin.amount <$> filter (fun c => Coin.denom c = denom) cs.

Definition running_total (amounts : list Z) : Z :=
  match amounts with
  | [] => 0
  | first :: rest => fold_left added rest first
  end.

(** [Number(text)] is a number, and not [Infinity], for a decimal of
    magnitude below [2^1024 - 2^970], halfway from the largest number to
    [2^1024].  The integers of this model have no [Infinity] (which [Big]
    refuses): the facts about amounts are stated for running totals that
    stay in that range. *)
Definition reads_finite (x : Z) : Prop := Z.abs x < 2 ^ 1024 - 2 ^ 970.

Fixpoint stays_finite_from (held : Z) (rest : list Z) : Prop :=
  match rest with
  | [] => True
  | amount :: rest' =>
      reads_finite (Big.plus (Big.of_number held) amount)
      /\ stays_finite_from (added held amount) rest'
  end.

Definition stays_finite (amounts : list Z) : Prop :=
  match amounts with
  | [] => True
  | first :: rest => stays_finite_from first rest
  end.

(** No running total of a denom of the coins [cs] leaves the range. *)
Definition totals_stay_finite (cs : list Coin.t) : Prop :=
  Forall (fun d => stays_finite (amounts_of d cs)) (Coin.denom <$> cs).

(** The state of the [forEach] loops of [getSignMsg] once the coins [cs]
    have been visited, from the store [h0]: the input coins are the
    objects made since, one per denom met, each holding the running total
    of its denom. *)
Definition collected (h0 : store) (cs : list Coin.t) (st : store * list ref)
  : Prop :=
  exists vals : list Coin.t,
    st.1 = (h0 ++ vals)%list
    /\ st.2 = seq (List.length h0) (List.length vals)
    /\ NoDup (Coin.denom <$> vals)
    /\ (forall d, d ∈ Coin.denom <$> vals <-> d ∈ Coin.denom <$> cs)
    /\ (forall v, v ∈ vals ->
          Coin.amount v = running_total (amounts_of (Coin.denom v) cs)).

(* ================================================================== *)
(** * Concrete inputs                                                   *)
(* ================================================================== *)

(** Stand-ins for the collaborators and the inputs of the concrete
    scenarios, used to run the definitions. *)
Module Fixture.

(** A wire renderer that writes one byte: the number of signatures. *)
Definition count_signatures : WireEncoder unit :=
  fun tx => Return [byte_of_N (N.of_nat (List.length (StdTx.signatures tx)))].

(** A signer that echoes the text it is given, and a key derivation
    that reads the private key as the [x] coordinate. *)
Definition echo : Crypto :=
  {| generateSignature := fun text _ => Return (Buffer.from_string text);
     generatePubKey :=
       fun privKeyBuf =>
         Return {| getX := Return (Some (Buffer.be_value privKeyBuf));
                   getY := Return (Some 1%N) |} |}.

(** A message whose signable form is [{foo: "bar"}]. *)
Definition foo_bar : BaseMsg unit :=
  {| getSignMsg := JObject [("foo", JString "bar")]; getMsg := Return tt |}.

(** The parameters of the concrete scenario, without and with a memo. *)
Definition test_chain (m : option string) : StdSignMsg.t unit :=
  {| StdSignMsg.chainId := Some "test-chain";
     StdSignMsg.accountNumber := Some 1;
     StdSignMsg.sequence := Some 5;
     StdSignMsg.msg := Some foo_bar;
     StdSignMsg.memo := m;
     StdSignMsg.source := Some 0 |}.

(** The transaction the constructor makes of them, the memo empty. *)
Definition test_chain_tx : Transaction.t unit :=
  {| Transaction.sequence := 5;
     Transaction.account_number := 1;
     Transaction.chain_id := "test-chain";
     Transaction.msg := foo_bar;
     Transaction.memo := Some EmptyString;
     Transaction.source := 0;
     Transaction.signatures := [] |}.

(** The payload the scenario expects. *)
Definition expected_payload : jsval :=
  JObject
    [ ("account_number", JString "1");
      ("chain_id", JString "test-chain");
      ("data", JNull);
      ("memo", JString EmptyString);
      ("msgs", JArray [JObject [("foo", JString "bar")]]);
      ("sequence", JString "5");
      ("source", JString "0") ].

(** Its canonical text, as hexadecimal digits. *)
Definition expected_hex : string :=
  "7b226163636f756e745f6e756d626572223a2231222c22636861696e5f6964223a22"
  ++ "746573742d636861696e222c2264617461223a6e756c6c2c226d656d6f223a22222c"
  ++ "226d736773223a5b7b22666f6f223a22626172227d5d2c2273657175656e6365223a"
  ++ "2235222c22736f75726365223a2230227d".

(** A chain id that is present and empty. *)
Definition empty_chain_id : StdSignMsg.t unit :=
  {| StdSignMsg.chainId := Some EmptyString;
     StdSignMsg.accountNumber := Some 1;
     StdSignMsg.sequence := Some 5;
     StdSignMsg.msg := Some foo_bar;
     StdSignMsg.memo := Some EmptyString;
     StdSignMsg.source := Some 0 |}.

(** A point with an odd [y], and its serialization. *)
Definition odd_point : BasePoint :=
  {| getX := Return (Some 7%N); getY := Return (Some 9%N) |}.

Definition odd_point_bytes : Buffer.t :=
  Buffer.from_hex
    ("eb5ae9872103"
     ++ "00000000000000000000000000000000"
     ++ "00000000000000000000000000000007").

(** Three coin objects and a message that pays them to two addresses,
    the first coin twice. *)
Definition coins : store :=
  [ {| Coin.denom := "BNB"; Coin.amount := 10 |};
    {| Coin.denom := "BTC"; Coin.amount := 2 |};
    {| Coin.denom := "BNB"; Coin.amount := 5 |} ].

Definition two_outputs : SendMsg.t :=
  {| SendMsg.sender := "me";
     SendMsg.outputs :=
       [ {| SignInputOutput.address := "a";
            SignInputOutput.coins := [0%nat; 1%nat] |};
         {| SignInputOutput.address := "b";
            SignInputOutput.coins := [2%nat; 0%nat] |} ] |}.

(** Two coins of one denom whose sum is not a safe integer. *)
Definition large_coins : store :=
  [ {| Coin.denom := "BNB"; Coin.amount := 9007199254740992 |};
    {| Coin.denom := "BNB"; Coin.amount := 1 |} ].

Definition large_output : SendMsg.t :=
  {| SendMsg.sender := "me";
     SendMsg.outputs :=
       [ {| SignInputOutput.address := "a";
            SignInputOutput.coins := [0%nat; 1%nat] |} ] |}.

(** Coins of two denoms, one of them with an amount beyond [2^53], paid
    to one address. *)
Definition mixed_coins : store :=
  [ {| Coin.denom := "BNB"; Coin.amount := 1152921504606846976 |};
    {| Coin.denom := "BTC"; Coin.amount := 2 |};
    {| Coin.denom := "BNB"; Coin.amount := 105 |};
    {| Coin.denom := "BTC"; Coin.amount := 3 |} ].

Definition mixed_output : SendMsg.t :=
  {| SendMsg.sender := "me";
     SendMsg.outputs :=
       [ {| SignInputOutput.address := "a";
            SignInputOutput.coins := [0%nat; 1%nat; 2%nat; 3%nat] |} ] |}.

(** A freshly constructed transaction, nothing done yet. *)
Definition fresh : Transaction.world unit :=
  {| Transaction.this := test_chain_tx; Transaction.events := [] |}.

End Fixture.

(* ================================================================== *)
(** * [SendMsg.getMsg] ([src/types/send.ts]) and the coins by value     *)
(* ================================================================== *)

Module InputOutput.
Record t : Type := { address : Buffer.t; coins : list ref }.
End InputOutput.

Module SendData.
Record t : Type := {
  inputs : list InputOutput.t;
  outputs : list InputOutput.t;
  aminoPrefix : TxAminoPrefix.t
}.
End SendData.

(** [crypto.decodeAddress] ([src/crypto], not part of the sources): from
    the text of an address to its bytes, or a [throw]. *)
Class AddressCodec : Type :=
  decodeAddress : string -> completion Buffer.t.

Module SendWire.
Section GetMsg.
Context {codec : AddressCodec}.

(** [public readonly aminoPrefix = TxAminoPrefix.MsgSend] *)
Definition aminoPrefix : TxAminoPrefix.t := TxAminoPrefix.MsgSend.

(** The body of the [forEach] callback of [getMsg]: the state is the
    array [msg.outputs] so far (or the error that ended the loop), the
    store and the array [msg.inputs[0].coins]. *)
Definition getMsg_step
    (acc : completion (list InputOutput.t) * (store * list ref))
    (item : SignInputOutput.t)
  : completion (list InputOutput.t) * (store * list ref) :=
  match acc.1 with
  | Throw e => acc
  | Return outputs =>
      let st := SendMsg.calInputCoins acc.2 (SignInputOutput.coins item) in
      match decodeAddress (SignInputOutput.address item) with
      | Throw e => (Throw e, st)
      | Return address =>
          let output :=
            {| InputOutput.address := address;
               InputOutput.coins := SignInputOutput.coins item |} in
          (Return (outputs ++ [output])%list, st)
      end
  end.

(** [getMsg()]: the structure returned, or the error of the first address
    that does not decode, and the store it leaves. *)
Definition getMsg (o : SendMsg.t) (h : store)
  : completion SendData.t * store :=
  match decodeAddress (SendMsg.sender o) with
  | Throw e => (Throw e, h)
  | Return address =>
      let r := fold_left getMsg_step (SendMsg.outputs o) (Return [], (h, [])) in
      (outputs ← r.1;
       mret {| SendData.inputs :=
                 [ {| InputOutput.address := address;
                      InputOutput.coins := r.2.2 |} ];
               SendData.outputs := outputs;
               SendData.aminoPrefix := aminoPrefix |},
       r.2.1)
  end.

End GetMsg.
End SendWire.

(** An output of the wire form: the decoded address and the same array
    of coins. *)
Definition wire_of {codec : AddressCodec} (item : SignInputOutput.t)
    (out : InputOutput.t) : Prop :=
  decodeAddress (SignInputOutput.address item)
  = Return (InputOutput.address out)
  /\ InputOutput.coins out = SignInputOutput.coins item.

(** What [calInputCoins] does to the input coins, as values: the first
    coin of the denom takes the amount, or the coin is added at the end. *)
Definition add_coin (vals : list Coin.t) (c : Coin.t) : list Coin.t :=
  match list_find (fun v => Coin.denom v = Coin.denom c) vals with
  | Some (j, v) =>
      <[j := {| Coin.denom := Coin.denom v;
                Coin.amount := added (Coin.amount v) (Coin.amount c) |}]> vals
  | None => (vals ++ [c])%list
  end.

Definition input_coins (cs : list Coin.t) : list Coin.t :=
  fold_left add_coin cs [].


(** The signatures that carry the account number and the sequence of the
    transaction that holds them. *)
Definition signatures_match {Wire} (o : Transaction.t Wire) : Prop :=
  Forall (fun s => StdSignature.account_number s = Transaction.account_number o
                   /\ StdSignature.sequence s = Transaction.sequence o)
         (Transaction.signatures o).

(** More concrete inputs. *)
Module Sample.

(** An address codec that reads the text as bytes and refuses the empty
    text. *)
Definition text_codec : AddressCodec :=
  fun s => match s with
           | EmptyString => Throw (Error "empty address")
           | _ => Return (Buffer.from_string s)
           end.

(** The wire form of [Fixture.two_outputs] under this codec, from the
    store [Fixture.coins]. *)
Definition two_outputs_wire : SendData.t :=
  {| SendData.inputs :=
       [ {| InputOutput.address := Buffer.from_string "me";
            InputOutput.coins := [3%nat; 4%nat] |} ];
     SendData.outputs :=
       [ {| InputOutput.address := Buffer.from_string "a";
            InputOutput.coins := [0%nat; 1%nat] |};
         {| InputOutput.address := Buffer.from_string "b";
            InputOutput.coins := [2%nat; 0%nat] |} ];
     SendData.aminoPrefix := TxAminoPrefix.MsgSend |}.

(** A signer that refuses a private key that is not 32 bytes long. *)
Definition strict : Crypto :=
  {| generateSignature :=
       fun text privKeyBuf =>
         if (List.length privKeyBuf =? 32)%nat
         then Return (Buffer.from_string text)
         else Throw (TypeError "Expected Private");
     generatePubKey :=
       fun privKeyBuf =>
         if (List.length privKeyBuf =? 32)%nat
         then Return {| getX := Return (Some (Buffer.be_value privKeyBuf));
                        getY := Return (Some 1%N) |}
         else Throw (TypeError "Expected Private") |}.

(** A message whose wire form cannot be made. *)
Definition no_wire : BaseMsg unit :=
  {| getSignMsg := JObject [("foo", JString "bar")];
     getMsg := Throw (Error "bad address") |}.


End Sample.

(* ================================================================== *)
(** * Facts about buffers, big numbers and the varint                   *)
(* ================================================================== *)

#[local] Open Scope list_scope.

Lemma size_shiftr_7 (n : N) :
  (128 <= n)%N -> (N.size (N.shiftr n 7) + 7 = N.size n)%N.
Proof.
  intros Hn.
  assert (N.shiftr n 7 <> 0)%N as Hnz.
  { rewrite N.shiftr_div_pow2. change (2 ^ 7)%N with 128%N.
    intros Hz. apply N.div_small_iff in Hz; lia. }
  rewrite (N.size_log2 n) by lia. rewrite (N.size_log2 _ Hnz).
  rewrite N.log2_shiftr.
  assert (7 <= N.log2 n)%N by (apply N.log2_le_pow2; [lia|exact Hn]).
  lia.
Qed.

(** The fuel [UVarInt.encode] starts with is never used up: more fuel
    changes nothing. *)
Lemma encode_go_enough (fuel : nat) :
  forall (n : N) (more : nat),
    (N.size n <= N.of_nat fuel)%N ->
    UVarInt.encode_go (S (fuel + more)) n = UVarInt.encode_go (S fuel) n.
Proof.
  induction fuel as [|fuel IH]; intros n more Hsize.
  - assert (n = 0%N) as -> by (destruct n as [|p]; [reflexivity|];
      cbn in Hsize; lia).
    reflexivity.
  - cbn [UVarInt.encode_go plus].
    destruct (N.ltb_spec n 128) as [Hlt|Hge]; [reflexivity|].
    f_equal. apply IH.
    pose proof (size_shiftr_7 n Hge). lia.
Qed.

Lemma encode_any_fuel (n : N) (more : nat) :
  UVarInt.encode_go (S (N.to_nat (N.size n) + more)) n = UVarInt.encode n.
Proof. unfold UVarInt.encode. apply encode_go_enough. lia. Qed.

Lemma to_N_byte_of_N (n : N) : (n < 256)%N -> Byte.to_N (byte_of_N n) = n.
Proof.
  intros Hn. unfold byte_of_N.
  rewrite <- (N_ascii_embedding n Hn) at 2.
  apply Byte.to_of_N. symmetry. apply byte_of_ascii_via_N.
Qed.

Lemma be_value_acc (b : Buffer.t) (acc : N) :
  fold_left (fun a x => (256 * a + Byte.to_N x)%N) b acc
  = (acc * 256 ^ N.of_nat (List.length b) + Buffer.be_value b)%N.
Proof.
  unfold Buffer.be_value. revert acc.
  induction b as [|x b IH]; intros acc.
  - cbn. lia.
  - cbn [fold_left List.length]. rewrite IH, (IH (256 * 0 + Byte.to_N x)%N).
    rewrite Nat2N.inj_succ, N.pow_succ_r'. lia.
Qed.

Lemma be_value_cons (x : byte) (b : Buffer.t) :
  Buffer.be_value (x :: b)
  = (Byte.to_N x * 256 ^ N.of_nat (List.length b) + Buffer.be_value b)%N.
Proof.
  unfold Buffer.be_value at 1. cbn [fold_left].
  now rewrite be_value_acc.
Qed.

Lemma be_bytes_length (len : nat) (n : N) :
  List.length (BN.be_bytes len n) = len.
Proof. unfold BN.be_bytes. now rewrite length_map, length_rev, length_seq. Qed.

Lemma be_bytes_succ (len : nat) (n : N) :
  BN.be_bytes (S len) n
  = byte_of_N (N.shiftr n (8 * N.of_nat len) mod 256) :: BN.be_bytes len n.
Proof. unfold BN.be_bytes. now rewrite seq_S, rev_app_distr. Qed.

(** The bytes [toArrayLike] writes spell the number, big end first. *)
Lemma be_value_be_bytes (len : nat) (n : N) :
  Buffer.be_value (BN.be_bytes len n) = (n mod 256 ^ N.of_nat len)%N.
Proof.
  induction len as [|len IH].
  - cbn. now rewrite N.mod_1_r.
  - rewrite be_bytes_succ, be_value_cons, IH, be_bytes_length.
    rewrite to_N_byte_of_N by (apply N.mod_upper_bound; lia).
    rewrite N.shiftr_div_pow2, Nat2N.inj_succ, N.pow_succ_r'.
    replace (2 ^ (8 * N.of_nat len))%N with (256 ^ N.of_nat len)%N
      by (change 256%N with (2 ^ 8)%N; now rewrite <- N.pow_mul_r).
    rewrite (N.mul_comm 256), N.Div0.mod_mul_r. lia.
Qed.

Lemma byteLength_fits (n : N) :
  (n < 2 ^ 256)%N -> (BN.byteLength n <=? 32)%nat = true.
Proof.
  intros Hn. apply Nat.leb_le. unfold BN.byteLength.
  assert (N.size n <= 256)%N as Hs.
  { destruct (N.eq_dec n 0%N) as [->|Hz]; [cbn; lia|].
    rewrite N.size_log2 by assumption.
    apply N.le_succ_l, N.log2_lt_pow2; lia. }
  assert ((N.size n + 7) / 8 <= 32)%N.
  { change 32%N with ((256 + 7) / 8)%N. apply N.Div0.div_le_mono. lia. }
  lia.
Qed.

Lemma byteLength_overflows (n : N) :
  (2 ^ 256 <= n)%N -> (BN.byteLength n <=? 32)%nat = false.
Proof.
  intros Hn. apply Nat.leb_gt. unfold BN.byteLength.
  assert (257 <= N.size n)%N as Hs.
  { assert (0 < 2 ^ 256)%N by (apply N.neq_0_lt_0, N.pow_nonzero; lia).
    rewrite N.size_log2 by lia.
    assert (256 <= N.log2 n)%N by (apply N.log2_le_pow2; lia). lia. }
  assert (33 <= (N.size n + 7) / 8)%N.
  { change 33%N with ((257 + 7) / 8)%N. apply N.Div0.div_le_mono. lia. }
  lia.
Qed.

Lemma toArrayLike_be_fits (n : N) :
  (n < 2 ^ 256)%N -> BN.toArrayLike_be 32 n = Return (BN.be_bytes 32 n).
Proof. intros Hn. unfold BN.toArrayLike_be. now rewrite byteLength_fits. Qed.

Lemma varint_single_byte (n : N) :
  (n < 128)%N -> UVarInt.encode n = [byte_of_N n].
Proof.
  intros Hn. unfold UVarInt.encode. cbn [UVarInt.encode_go].
  apply N.ltb_lt in Hn. now rewrite Hn.
Qed.

Lemma hex_byte_roundtrip (x : byte) :
  let hi := (Byte.to_N x / 16)%N in
  let lo := (Byte.to_N x mod 16)%N in
  Buffer.hex_value (Buffer.hex_digit hi) = Some hi
  /\ Buffer.hex_value (Buffer.hex_digit lo) = Some lo
  /\ byte_of_N (16 * hi + lo) = x
  /\ Buffer.is_lower_hex_digit (Buffer.hex_digit hi) = true
  /\ Buffer.is_lower_hex_digit (Buffer.hex_digit lo) = true.
Proof. destruct x; vm_compute; repeat split; reflexivity. Qed.

(** [toString("hex")] writes lower-case digits only. *)
Lemma toString_hex_lower (b : Buffer.t) :
  Buffer.lower_hex_text (Buffer.toString_hex b) = true.
Proof.
  unfold Buffer.lower_hex_text.
  induction b as [|x b IH]; [reflexivity|].
  destruct (hex_byte_roundtrip x) as (_ & _ & _ & Hhi & Hlo).
  cbn [Buffer.toString_hex list_ascii_of_string forallb].
  now rewrite Hhi, Hlo, IH.
Qed.

(** Decoding the hex text gives the bytes back. *)
Lemma from_hex_toString_hex (b : Buffer.t) :
  Buffer.from_hex (Buffer.toString_hex b) = b.
Proof.
  induction b as [|x b IH]; [reflexivity|].
  destruct (hex_byte_roundtrip x) as (Hhi & Hlo & Hx & _).
  cbn [Buffer.toString_hex Buffer.from_hex].
  now rewrite Hhi, Hlo, Hx, IH.
Qed.

Lemma toString_hex_length (b : Buffer.t) :
  String.length (Buffer.toString_hex b) = (2 * List.length b)%nat.
Proof.
  induction b as [|x b IH]; [reflexivity|].
  cbn [Buffer.toString_hex String.length List.length]. rewrite IH. lia.
Qed.

(* ================================================================== *)
(** * The public key codec                                              *)
(* ================================================================== *)

Lemma serializePubKey_with_x (x : N) (y : option N) :
  (x < 2 ^ 256)%N ->
  Transaction._serializePubKey {| getX := Return (Some x); getY := Return y |}
  = Return ([xeb; x5a; xe9; x87] ++ [x21]
            ++ (if from_option BN.isOdd false y then x03 else x02)
            :: BN.be_bytes 32 x).
Proof.
  intros Hx. unfold Transaction._serializePubKey.
  cbn [getX getY mbind completion_bind]. rewrite (toArrayLike_be_fits x Hx).
  cbn [mbind completion_bind mret completion_ret].
  unfold encoder.encodeBinaryByteArray, Buffer.concat.
  cbn [List.concat]. rewrite !app_nil_r.
  assert (forall tag : byte,
             UVarInt.encode (N.of_nat (List.length ([tag] ++ BN.be_bytes 32 x)))
             = [x21]) as Hlen.
  { intros tag. cbn [app List.length]. rewrite be_bytes_length. reflexivity. }
  destruct (from_option BN.isOdd false y).
  - change (UVarInt.encode (Z.to_N (Z.lor 2 1))) with [x03].
    now rewrite Hlen.
  - change (UVarInt.encode (Z.to_N 2)) with [x02].
    now rewrite Hlen.
Qed.

(** The ways [_serializePubKey] ends, by what the getters do. *)
Lemma serializePubKey_cases (p : BasePoint) :
  match getY p, getX p with
  | Throw e, _ => Transaction._serializePubKey p = Throw e
  | Return _, Throw e => Transaction._serializePubKey p = Throw e
  | Return _, Return None =>
      Transaction._serializePubKey p
      = Throw (TypeError "Cannot read property 'toArrayLike' of null")
  | Return y, Return (Some x) =>
      if (BN.byteLength x <=? 32)%nat then
        returns (Transaction._serializePubKey p) = true
      else
        Transaction._serializePubKey p
        = Throw (Error "byte array longer than desired length")
  end.
Proof.
  unfold Transaction._serializePubKey.
  destruct (getY p) as [y|e]; [|reflexivity].
  destruct (getX p) as [[x|]|e]; try reflexivity.
  cbn [mbind completion_bind]. unfold BN.toArrayLike_be.
  destruct (BN.byteLength x <=? 32)%nat; reflexivity.
Qed.

(** C4: for a point with coordinates [x] (below [2^256]) and [y], the
    serialized key is the four-byte key-type tag [EB5AE987], the varint of
    the length 33 (one byte, [0x21]), and the 33-byte compressed key: the
    format byte, [0x02] for even [y] and [0x03] for odd [y], followed by
    the 32 bytes that spell [x] in big-endian order. *)
Theorem serializePubKey_compressed (x y : N) :
  (x < 2 ^ 256)%N ->
  let compressed := compressed_tag y :: BN.be_bytes 32 x in
  Transaction._serializePubKey
    {| getX := Return (Some x); getY := Return (Some y) |}
  = Return (Buffer.from_hex "EB5AE987"
            ++ UVarInt.encode (N.of_nat (List.length compressed))
            ++ compressed)
  /\ List.length compressed = 33%nat
  /\ List.length (BN.be_bytes 32 x) = 32%nat
  /\ Buffer.be_value (BN.be_bytes 32 x) = x
  /\ compressed_tag y = (if N.even y then x02 else x03)
  /\ UVarInt.encode 33 = [x21]
  /\ Buffer.from_hex "EB5AE987" = [xeb; x5a; xe9; x87].
Proof.
  intros Hx compressed. subst compressed.
  repeat apply conj.
  - rewrite (serializePubKey_with_x x (Some y) Hx).
    cbn [List.length]. rewrite be_bytes_length. reflexivity.
  - cbn [List.length]. now rewrite be_bytes_length.
  - apply be_bytes_length.
  - rewrite be_value_be_bytes. apply N.mod_small.
    change (256 ^ N.of_nat 32)%N with (2 ^ 256)%N. exact Hx.
  - unfold compressed_tag. rewrite <- N.negb_odd. now destruct (N.odd y).
  - reflexivity.
  - reflexivity.
Qed.

Lemma serializePubKey_compressed_witness :
  (7 < 2 ^ 256)%N
  /\ Transaction._serializePubKey Fixture.odd_point
     = Return (Buffer.from_hex "EB5AE987"
               ++ UVarInt.encode
                    (N.of_nat
                       (List.length (compressed_tag 9%N :: BN.be_bytes 32 7%N)))
               ++ compressed_tag 9%N :: BN.be_bytes 32 7%N).
Proof.
  split; [reflexivity|].
  apply (serializePubKey_compressed 7%N 9%N). reflexivity.
Defined.

(** C9, as the code has it: the codec tests nothing about the point and
    raises no error of its own.  Given the identity it fails with the
    [TypeError] that the getter [getY], called first, raises on the
    missing coordinate; an error of a getter passes through as it is; a
    point whose getters return, with an [x] coordinate of at most 32
    bytes, is serialized, whatever its [y]; and every failure is a
    getter's, the engine's (an [x] that is [null]) or that of bn.js (an
    [x] of more than 32 bytes). *)
Theorem serializePubKey_fails_on_identity_only (p : BasePoint) :
  (exists message,
      getY identity_point = Throw (TypeError message)
      /\ Transaction._serializePubKey identity_point
         = Throw (TypeError message))
  /\ (forall e, getY p = Throw e -> Transaction._serializePubKey p = Throw e)
  /\ (forall y e, getY p = Return y -> getX p = Throw e ->
        Transaction._serializePubKey p = Throw e)
  /\ (forall x y, getY p = Return y -> getX p = Return (Some x) ->
        (x < 2 ^ 256)%N ->
        returns (Transaction._serializePubKey p) = true)
  /\ (forall e, Transaction._serializePubKey p = Throw e ->
        getY p = Throw e
        \/ getX p = Throw e
        \/ (getX p = Return None /\ exists message, e = TypeError message)
        \/ (exists x, getX p = Return (Some x) /\ (2 ^ 256 <= x)%N
                       /\ e = Error "byte array longer than desired length")).
Proof.
  pose proof (serializePubKey_cases p) as Hcases.
  split; [eexists; split; reflexivity|].
  repeat apply conj.
  - intros e He. now rewrite He in Hcases.
  - intros y e Hy He. now rewrite Hy, He in Hcases.
  - intros x y Hy Hx Hlt. rewrite Hy, Hx in Hcases.
    now rewrite (byteLength_fits x Hlt) in Hcases.
  - intros e He.
    destruct (getY p) as [y|ey]; [|left; congruence].
    destruct (getX p) as [[x|]|ex]; [| |right; left; congruence].
    + right. right. right. exists x. split; [reflexivity|].
      destruct (N.lt_ge_cases x (2 ^ 256)) as [Hlt|Hge].
      * rewrite (byteLength_fits x Hlt), He in Hcases. discriminate.
      * rewrite (byteLength_overflows x Hge) in Hcases.
        split; [exact Hge|congruence].
    + right. right. left. split; [reflexivity|].
      exists "Cannot read property 'toArrayLike' of null". congruence.
Qed.

Lemma serializePubKey_fails_on_identity_only_witness :
  returns (Transaction._serializePubKey Fixture.odd_point) = true.
Proof.
  refine (proj1 (proj2 (proj2 (proj2 (serializePubKey_fails_on_identity_only
                   Fixture.odd_point)))) 7%N (Some 9%N) _ _ _);
    reflexivity.
Defined.

(** C9 as stated fails: what the identity makes the codec fail with is
    the [TypeError] of its getter, not an error that the code raises. *)
Lemma serializePubKey_identity_error_is_the_getters :
  getY identity_point
  = Throw (TypeError "Cannot read property 'fromRed' of null")
  /\ Transaction._serializePubKey identity_point
     = Throw (TypeError "Cannot read property 'fromRed' of null")
  /\ ~ InvalidPointError (TypeError "Cannot read property 'fromRed' of null").
Proof.
  repeat apply conj; [reflexivity..|]. intros [message Hm]. discriminate.
Qed.

(* ================================================================== *)
(** * The transaction: construction                                     *)
(* ================================================================== *)

Section Construction.
Context {Wire : Type}.
Implicit Types (data : option (StdSignMsg.t Wire)) (o : Transaction.t Wire).

Lemma js_or_zero (x : option Z) : js_or x 0 = default 0 x.
Proof.
  destruct x as [n|]; [|reflexivity]. cbn.
  unfold truthy, number_truthy. destruct (Z.eqb_spec n 0); cbn; congruence.
Qed.

Lemma string_truthy_false (s : string) : truthy s = false <-> s = EmptyString.
Proof. destruct s; cbn; split; congruence. Qed.

(** The two ways out of the constructor. *)
Lemma constructor_cases data :
  let d := default StdSignMsg.empty data in
  match StdSignMsg.chainId d, StdSignMsg.msg d with
  | Some (String a s), Some m =>
      Transaction.constructor data
      = Return {| Transaction.sequence := default 0 (StdSignMsg.sequence d);
                  Transaction.account_number :=
                    default 0 (StdSignMsg.accountNumber d);
                  Transaction.chain_id := String a s;
                  Transaction.msg := m;
                  Transaction.memo := StdSignMsg.memo d;
                  Transaction.source := default 0 (StdSignMsg.source d);
                  Transaction.signatures := [] |}
  | Some (String _ _), None =>
      Transaction.constructor data
      = Throw (Error "Transaction type should not be null")
  | _, _ =>
      Transaction.constructor data = Throw (Error "chain id should not be null")
  end.
Proof.
  intros d. unfold Transaction.constructor. fold d.
  destruct (StdSignMsg.chainId d) as [[|a s]|]; try reflexivity.
  destruct (StdSignMsg.msg d) as [m|]; [|reflexivity].
  cbn. now rewrite !js_or_zero.
Qed.

(** What a constructed transaction holds. *)
Lemma constructor_returns data o :
  Transaction.constructor data = Return o ->
  let d := default StdSignMsg.empty data in
  StdSignMsg.chainId d = Some (Transaction.chain_id o)
  /\ StdSignMsg.msg d = Some (Transaction.msg o)
  /\ Transaction.sequence o = default 0 (StdSignMsg.sequence d)
  /\ Transaction.account_number o = default 0 (StdSignMsg.accountNumber d)
  /\ Transaction.source o = default 0 (StdSignMsg.source d)
  /\ Transaction.memo o = StdSignMsg.memo d
  /\ Transaction.signatures o = [].
Proof.
  intros Ho d. pose proof (constructor_cases data) as H. fold d in H.
  cbv zeta in H.
  destruct (StdSignMsg.chainId d) as [[|a s]|];
    [| destruct (StdSignMsg.msg d) as [m|] |]; rewrite H in Ho;
    try discriminate.
  injection Ho as <-. cbn. intuition.
Qed.

(** C7, as the code has it: the constructor fails, with the
    missing-field error, exactly when the chain id is missing or empty
    or the message is missing; otherwise it stores chain id, message and
    memo as given, the three numbers with 0 for a missing one, and no
    signature. *)
Theorem constructor_spec data :
  let d := default StdSignMsg.empty data in
  (forall e, Transaction.constructor data = Throw e -> MissingFieldError e)
  /\ (returns (Transaction.constructor data) = false
      <-> StdSignMsg.chainId d = None
          \/ StdSignMsg.chainId d = Some EmptyString
          \/ StdSignMsg.msg d = None)
  /\ (forall o, Transaction.constructor data = Return o ->
        StdSignMsg.chainId d = Some (Transaction.chain_id o)
        /\ StdSignMsg.msg d = Some (Transaction.msg o)
        /\ Transaction.sequence o = default 0 (StdSignMsg.sequence d)
        /\ Transaction.account_number o
           = default 0 (StdSignMsg.accountNumber d)
        /\ Transaction.source o = default 0 (StdSignMsg.source d)
        /\ Transaction.memo o = StdSignMsg.memo d
        /\ Transaction.signatures o = []).
Proof.
  intros d. pose proof (constructor_cases data) as H. fold d in H. cbv zeta in H.
  destruct (StdSignMsg.chainId d) as [[|a s]|];
    [| destruct (StdSignMsg.msg d) as [m|] |]; rewrite H; clear H.
  - split; [|split].
    + intros e [= <-]. now left.
    + cbn. intuition.
    + intros o [=].
  - split; [|split].
    + intros e [=].
    + cbn. intuition congruence.
    + intros o [= <-]. cbn. intuition.
  - split; [|split].
    + intros e [= <-]. now right.
    + cbn. intuition.
    + intros o [=].
  - split; [|split].
    + intros e [= <-]. now left.
    + cbn. intuition.
    + intros o [=].
Qed.

(** C8, as the code has it: the memo is stored as it is given, and
    the payload to sign carries it as it is stored; nothing stands in
    for a memo that was not given. *)
Theorem memo_stored_as_given data o (m : jsval) :
  Transaction.constructor data = Return o ->
  let given := StdSignMsg.memo (default StdSignMsg.empty data) in
  Transaction.memo o = given
  /\ js_get "memo" (Transaction.signMsg o m)
     = Some (from_option JString JUndefined given)
  /\ (given = Some EmptyString ->
      js_get "memo" (Transaction.signMsg o m) = Some (JString EmptyString))
  /\ (given = None ->
      js_get "memo" (Transaction.signMsg o m) = Some JUndefined).
Proof.
  intros Ho given.
  destruct (constructor_returns data o Ho) as (_ & _ & _ & _ & _ & Hmemo & _).
  fold given in Hmemo.
  assert (js_get "memo" (Transaction.signMsg o m)
          = Some (from_option JString JUndefined given)) as Hget
    by (now rewrite <- Hmemo).
  repeat apply conj; [exact Hmemo | exact Hget | |];
    intros Hg; rewrite Hget, Hg; reflexivity.
Qed.

End Construction.

Lemma constructor_spec_witness :
  exists o,
    Transaction.constructor (Some (Fixture.test_chain None)) = Return o
    /\ Transaction.sequence o = 5
    /\ Transaction.account_number o = 1
    /\ Transaction.source o = 0
    /\ Transaction.signatures o = [].
Proof.
  eexists. split; [reflexivity|].
  destruct (constructor_spec (Some (Fixture.test_chain None))) as (_ & _ & H).
  destruct (H _ eq_refl) as (_ & _ & Hs & Ha & Hsrc & _ & Hsig).
  repeat apply conj; assumption.
Defined.

(** C7 as stated fails: a chain id that is present, and empty, is
    refused with the missing-field error. *)
Lemma constructor_refuses_empty_chain_id :
  is_Some (StdSignMsg.chainId Fixture.empty_chain_id)
  /\ is_Some (StdSignMsg.msg Fixture.empty_chain_id)
  /\ Transaction.constructor (Some Fixture.empty_chain_id)
     = Throw (Error "chain id should not be null")
  /\ MissingFieldError (Error "chain id should not be null").
Proof.
  repeat apply conj; [eexists; reflexivity .. | reflexivity | now left].
Qed.

Lemma memo_stored_as_given_witness :
  exists o,
    Transaction.constructor (Some (Fixture.test_chain (Some EmptyString))) = Return o
    /\ js_get "memo" (Transaction.signMsg o JNull) = Some (JString EmptyString).
Proof.
  eexists. split; [reflexivity|].
  refine (proj1 (proj2 (memo_stored_as_given
            (Some (Fixture.test_chain (Some EmptyString))) _ JNull _))).
  reflexivity.
Defined.

(** C8 as stated fails: a transaction constructed without a memo has no
    memo, and the payload to sign holds [undefined] there, not the empty
    string. *)
Lemma memo_has_no_default :
  exists o,
    Transaction.constructor (Some (Fixture.test_chain None)) = Return o
    /\ Transaction.memo o = None
    /\ Transaction.memo o <> Some EmptyString
    /\ js_get "memo" (Transaction.signMsg o (getSignMsg (Transaction.msg o)))
       = Some JUndefined
    /\ js_get "memo" (Transaction.signMsg o (getSignMsg (Transaction.msg o)))
       <> Some (JString EmptyString).
Proof. eexists. repeat apply conj; (reflexivity || discriminate). Qed.

(* ================================================================== *)
(** * The transaction: sign bytes                                       *)
(* ================================================================== *)

Section SignBytes.
Context {Wire : Type}.
Implicit Types (w : Transaction.world Wire) (o : Transaction.t Wire).

(** [getSignBytes] is the encoder applied to the payload, in the same
    state. *)
Lemma getSignBytes_unfold w (m : option jsval) :
  Transaction.getSignBytes m w
  = (encoder.convertObjectToSignBytes
       (Transaction.signMsg (Transaction.this w)
          (js_or m (getSignMsg (Transaction.msg (Transaction.this w))))),
     w).
Proof. reflexivity. Qed.

(** C6: [getSignBytes] leaves the transaction (and everything else)
    as it was, a second call gives what the first gave, and two
    transactions constructed from parameters that agree field by field,
    with messages of equal signable form, give the same bytes. *)
Theorem getSignBytes_pure w (m : option jsval)
    (d1 d2 : StdSignMsg.t Wire) o1 o2 (ev1 ev2 : list Transaction.event) :
  Transaction.constructor (Some d1) = Return o1 ->
  Transaction.constructor (Some d2) = Return o2 ->
  StdSignMsg.chainId d1 = StdSignMsg.chainId d2 ->
  StdSignMsg.accountNumber d1 = StdSignMsg.accountNumber d2 ->
  StdSignMsg.sequence d1 = StdSignMsg.sequence d2 ->
  StdSignMsg.memo d1 = StdSignMsg.memo d2 ->
  StdSignMsg.source d1 = StdSignMsg.source d2 ->
  getSignMsg <$> StdSignMsg.msg d1 = getSignMsg <$> StdSignMsg.msg d2 ->
  (Transaction.getSignBytes m w).2 = w
  /\ Transaction.getSignBytes m (Transaction.getSignBytes m w).2
     = Transaction.getSignBytes m w
  /\ (Transaction.getSignBytes None
        {| Transaction.this := o1; Transaction.events := ev1 |}).1
     = (Transaction.getSignBytes None
          {| Transaction.this := o2; Transaction.events := ev2 |}).1.
Proof.
  intros H1 H2 Hc Ha Hs Hm Hsrc Hmsg.
  split; [reflexivity|]. split; [reflexivity|].
  rewrite !getSignBytes_unfold. cbn [fst Transaction.this js_or].
  destruct (constructor_returns (Some d1) o1 H1)
    as (Hc1 & Hm1 & Hs1 & Ha1 & Hsrc1 & Hmemo1 & _).
  destruct (constructor_returns (Some d2) o2 H2)
    as (Hc2 & Hm2 & Hs2 & Ha2 & Hsrc2 & Hmemo2 & _).
  cbn [from_option] in *.
  change (id d1) with d1 in *. change (id d2) with d2 in *.
  unfold Transaction.signMsg.
  rewrite Hs1, Ha1, Hsrc1, Hmemo1, Hs2, Ha2, Hsrc2, Hmemo2.
  rewrite Hs, Ha, Hsrc, Hm.
  assert (Transaction.chain_id o1 = Transaction.chain_id o2) as ->
    by congruence.
  assert (getSignMsg (Transaction.msg o1) = getSignMsg (Transaction.msg o2))
    as -> by (rewrite Hm1, Hm2 in Hmsg; cbn in Hmsg; congruence).
  reflexivity.
Qed.

(** C2, with the memo given as the empty string: the payload built is
    the expected one, field for field, its three numbers as decimal
    strings, and the sign bytes are its canonical text. *)
Theorem getSignBytes_test_chain (m : BaseMsg Wire)
    (ev : list Transaction.event) :
  getSignMsg m = JObject [("foo", JString "bar")] ->
  exists o bytes,
    Transaction.constructor
      (Some {| StdSignMsg.chainId := Some "test-chain";
               StdSignMsg.accountNumber := Some 1;
               StdSignMsg.sequence := Some 5;
               StdSignMsg.msg := Some m;
               StdSignMsg.memo := Some EmptyString;
               StdSignMsg.source := Some 0 |}) = Return o
    /\ Transaction.signMsg o (getSignMsg (Transaction.msg o))
       = Fixture.expected_payload
    /\ Transaction.getSignBytes None
         {| Transaction.this := o; Transaction.events := ev |}
       = (Return bytes, {| Transaction.this := o; Transaction.events := ev |})
    /\ encoder.convertObjectToSignBytes Fixture.expected_payload = Return bytes
    /\ Buffer.toString_hex bytes = Fixture.expected_hex
    /\ js_get "account_number" Fixture.expected_payload = Some (JString "1")
    /\ js_get "sequence" Fixture.expected_payload = Some (JString "5")
    /\ js_get "source" Fixture.expected_payload = Some (JString "0").
Proof.
  intros Hm. eexists. eexists.
  split; [reflexivity|].
  rewrite getSignBytes_unfold.
  cbn [Transaction.this Transaction.msg js_or]. rewrite Hm.
  repeat apply conj; vm_compute; reflexivity.
Qed.

End SignBytes.

Lemma getSignBytes_pure_witness :
  (Transaction.getSignBytes None
     {| Transaction.this := Fixture.test_chain_tx; Transaction.events := [] |}).1
  = (Transaction.getSignBytes None
       {| Transaction.this := Fixture.test_chain_tx;
          Transaction.events := [Transaction.Console_log "later"] |}).1.
Proof.
  refine (proj2 (proj2 (getSignBytes_pure
            {| Transaction.this := Fixture.test_chain_tx;
               Transaction.events := [] |} None
            (Fixture.test_chain (Some EmptyString))
            (Fixture.test_chain (Some EmptyString))
            Fixture.test_chain_tx Fixture.test_chain_tx
            [] [Transaction.Console_log "later"] _ _ _ _ _ _ _ _)));
    reflexivity.
Defined.

Lemma getSignBytes_test_chain_witness :
  exists o bytes,
    Transaction.constructor (Some (Fixture.test_chain (Some EmptyString))) = Return o
    /\ (Transaction.getSignBytes None
          {| Transaction.this := o; Transaction.events := [] |}).1 = Return bytes
    /\ Buffer.toString_hex bytes = Fixture.expected_hex.
Proof.
  destruct (getSignBytes_test_chain Fixture.foo_bar [] eq_refl)
    as (o & bytes & Ho & _ & Hb & _ & Hhex & _).
  exists o, bytes. repeat apply conj.
  - exact Ho.
  - now rewrite Hb.
  - exact Hhex.
Defined.

(** C2 as stated fails: constructed from the listed parameters alone,
    the transaction has no memo, its payload differs from the expected
    one in that field, and the encoder does not give the expected bytes. *)
Lemma getSignBytes_test_chain_without_memo :
  exists o,
    Transaction.constructor (Some (Fixture.test_chain None)) = Return o
    /\ Transaction.signMsg o (getSignMsg (Transaction.msg o))
       <> Fixture.expected_payload
    /\ js_get "memo" (Transaction.signMsg o (getSignMsg (Transaction.msg o)))
       = Some JUndefined
    /\ (Transaction.getSignBytes None
          {| Transaction.this := o; Transaction.events := [] |}).1
       <> encoder.convertObjectToSignBytes Fixture.expected_payload.
Proof.
  eexists. repeat apply conj; try reflexivity.
  - vm_compute. discriminate.
  - vm_compute. discriminate.
Qed.

(* ================================================================== *)
(** * The transaction: signing and serializing                          *)
(* ================================================================== *)

Section Signing.
Context {Wire : Type} {renderer : WireEncoder Wire} {signer : Crypto}.
Implicit Types (w : Transaction.world Wire) (o : Transaction.t Wire).

Lemma addSignature_unfold w (pubKey : BasePoint) (signature : Buffer.t) :
  Transaction.addSignature pubKey signature w
  = match Transaction._serializePubKey pubKey with
    | Return pubKeyBuf =>
        (Return tt,
         {| Transaction.this :=
              Built.with_signatures (Transaction.this w)
                [Built.entry (Transaction.this w) pubKeyBuf signature];
            Transaction.events := Transaction.events w |})
    | Throw e => (Throw e, w)
    end.
Proof.
  unfold Transaction.addSignature, Transaction.lift.
  cbn [mbind Transaction.M_bind].
  destruct (Transaction._serializePubKey pubKey); reflexivity.
Qed.

(** [sign] with a key, call by call: the sign bytes, the signer, the key
    derivation, [addSignature]; the first that throws ends it. *)
Lemma sign_unfold w (a : ascii) (s : string) (m : option jsval) :
  let privateKey := String a s in
  let privKeyBuf := Buffer.from_hex privateKey in
  Transaction.sign privateKey m w
  = match (Transaction.getSignBytes m w).1 with
    | Throw e => (Throw e, w)
    | Return signBytes =>
        match generateSignature (Buffer.toString_hex signBytes) privKeyBuf with
        | Throw e =>
            (Throw e,
             {| Transaction.this := Transaction.this w;
                Transaction.events :=
                  Transaction.events w
                  ++ Built.signer_called signBytes privateKey |})
        | Return signature =>
            let w2 :=
              {| Transaction.this := Transaction.this w;
                 Transaction.events :=
                   Transaction.events w
                   ++ Built.sign_events signBytes privateKey signature |} in
            match generatePubKey privKeyBuf with
            | Throw e => (Throw e, w2)
            | Return pubKey => Transaction.addSignature pubKey signature w2
            end
        end
    end.
Proof.
  intros privateKey privKeyBuf. unfold Transaction.sign.
  cbn [truthy string_truthy negb privateKey].
  rewrite getSignBytes_unfold. cbn [fst].
  unfold mbind at 1. unfold Transaction.M_bind. rewrite getSignBytes_unfold.
  destruct (encoder.convertObjectToSignBytes _) as [signBytes|e];
    [|reflexivity].
  unfold Built.sign_events, Built.signer_called, mbind, Transaction.M_bind,
    Transaction.emit, Transaction.lift.
  cbn [Transaction.this Transaction.events]. fold privateKey privKeyBuf.
  destruct (generateSignature _ _) as [signature|e]; [|reflexivity].
  cbn [Transaction.this Transaction.events]. rewrite <- !app_assoc.
  cbn [app]. destruct (generatePubKey _) as [pubKey|e]; reflexivity.
Qed.

Lemma serialize_unfold w :
  Transaction.serialize w = (Built.serialized (Transaction.this w), w).
Proof.
  unfold Transaction.serialize, Transaction.get_this, Transaction.lift,
    Built.serialized, Built.stdTx, mbind, Transaction.M_bind, completion_bind.
  cbn [truthy array_truthy negb].
  destruct (getMsg _) as [wire|e]; [|reflexivity].
  destruct (marshalBinary _); reflexivity.
Qed.

(** C1, what the code does: [serialize] on a transaction without a
    signature does not stop at its guard; it asks the message for its wire
    form, hands an envelope with no signature to the wire renderer and
    returns the hex text of what the renderer gives.  It fails only as the
    message or the renderer fails. *)
Theorem serialize_unsigned_reaches_renderer w :
  Transaction.signatures (Transaction.this w) = [] ->
  let o := Transaction.this w in
  match getMsg (Transaction.msg o) with
  | Throw e => Transaction.serialize w = (Throw e, w)
  | Return wire =>
      Transaction.serialize w
      = (Buffer.toString_hex <$> marshalBinary (Built.stdTx o wire), w)
      /\ StdTx.signatures (Built.stdTx o wire) = []
      /\ (forall bytes,
            marshalBinary (Built.stdTx o wire) = Return bytes ->
            (Transaction.serialize w).1 = Return (Buffer.toString_hex bytes))
      /\ (forall e,
            (Transaction.serialize w).1 = Throw e ->
            marshalBinary (Built.stdTx o wire) = Throw e)
      /\ (forall e,
            MissingSignatureError e ->
            marshalBinary (Built.stdTx o wire) <> Throw e ->
            (Transaction.serialize w).1 <> Throw e)
  end.
Proof.
  intros Hsig o. rewrite serialize_unfold. unfold Built.serialized. fold o.
  destruct (getMsg (Transaction.msg o)) as [wire|e]; [|reflexivity].
  unfold mbind, completion_bind, mret, completion_ret. repeat apply conj.
  - destruct (marshalBinary _); reflexivity.
  - exact Hsig.
  - intros bytes ->. reflexivity.
  - intros e. cbn [fst]. destruct (marshalBinary _); cbn; congruence.
  - intros e _ Hne. cbn [fst]. destruct (marshalBinary _); cbn; congruence.
Qed.

(** Without a key [sign] fails at once, and touches nothing. *)
Lemma sign_without_key w (m : option jsval) :
  exists e, Transaction.sign EmptyString m w = (Throw e, w)
            /\ MissingKeyError e.
Proof. eexists. split; reflexivity. Qed.

(** C3: with a private key that is not empty, [sign] calls the signer
    once, on the lower-case hexadecimal text of the sign bytes (text
    that decodes to them, two digits a byte), and hands the signature it
    gets to [addSignature], which attaches it; when the sign bytes
    cannot be produced, [sign] fails as [getSignBytes] does and the
    signer is not called; when the signer or the key derivation throws,
    [sign] fails with that error and attaches nothing. *)
Theorem sign_passes_hex_text w (privateKey : string) (m : option jsval) :
  privateKey <> EmptyString ->
  let privKeyBuf := Buffer.from_hex privateKey in
  match (Transaction.getSignBytes m w).1 with
  | Throw e => Transaction.sign privateKey m w = (Throw e, w)
  | Return signBytes =>
      let text := Buffer.toString_hex signBytes in
      let w' := (Transaction.sign privateKey m w).2 in
      Buffer.lower_hex_text text = true
      /\ Buffer.from_hex text = signBytes
      /\ String.length text = (2 * List.length signBytes)%nat
      /\ match generateSignature text privKeyBuf with
         | Throw e =>
             Transaction.sign privateKey m w
             = (Throw e,
                {| Transaction.this := Transaction.this w;
                   Transaction.events :=
                     Transaction.events w
                     ++ [Transaction.Call_generateSignature text privKeyBuf] |})
         | Return signature =>
             let called :=
               Transaction.events w
               ++ [ Transaction.Call_generateSignature text privKeyBuf;
                    Transaction.Console_log
                      ("s: " ++ Buffer.toString_hex signature)%string;
                    Transaction.Call_generatePubKey privKeyBuf ] in
             Transaction.events w' = called
             /\ match generatePubKey privKeyBuf with
                | Throw e =>
                    Transaction.sign privateKey m w
                    = (Throw e,
                       {| Transaction.this := Transaction.this w;
                          Transaction.events := called |})
                | Return pubKey =>
                    Transaction.sign privateKey m w
                    = Transaction.addSignature pubKey signature
                        {| Transaction.this := Transaction.this w;
                           Transaction.events := called |}
                    /\ (forall pubKeyBuf,
                          Transaction._serializePubKey pubKey
                          = Return pubKeyBuf ->
                          (Transaction.sign privateKey m w).1 = Return tt
                          /\ Transaction.signatures (Transaction.this w')
                             = [Built.entry (Transaction.this w) pubKeyBuf
                                  signature])
                end
         end
  end.
Proof.
  intros Hkey privKeyBuf.
  destruct privateKey as [|a s]; [congruence|].
  pose proof (sign_unfold w a s m) as Hsign. cbv zeta in Hsign.
  fold privKeyBuf in Hsign.
  destruct (Transaction.getSignBytes m w).1 as [signBytes|e];
    [|exact Hsign].
  intros text w'. subst w'. fold text in Hsign.
  split; [apply toString_hex_lower|].
  split; [apply from_hex_toString_hex|].
  split; [apply toString_hex_length|].
  destruct (generateSignature text privKeyBuf) as [signature|e];
    [|exact Hsign].
  intros called.
  destruct (generatePubKey privKeyBuf) as [pubKey|e].
  - rewrite Hsign, addSignature_unfold.
    split; [destruct (Transaction._serializePubKey _); reflexivity|].
    split; [reflexivity|].
    intros pubKeyBuf ->. split; reflexivity.
  - rewrite Hsign. split; reflexivity.
Qed.

End Signing.

(* ================================================================== *)
(** * The transaction: at most one signature                            *)
(* ================================================================== *)

Section SingleSigner.
Context {Wire : Type} {renderer : WireEncoder Wire} {signer : Crypto}.
Implicit Types (w : Transaction.world Wire) (o : Transaction.t Wire).

(** What [sign] leaves of the transaction: as it was, or with its
    signatures replaced by one entry made from it. *)
Lemma sign_this w (privateKey : string) (m : option jsval) :
  Transaction.this (Transaction.sign privateKey m w).2 = Transaction.this w
  \/ exists pubKeyBuf signature,
       Transaction.this (Transaction.sign privateKey m w).2
       = Built.with_signatures (Transaction.this w)
           [Built.entry (Transaction.this w) pubKeyBuf signature].
Proof.
  destruct privateKey as [|a s]; [left; reflexivity|].
  rewrite sign_unfold.
  destruct (Transaction.getSignBytes m w).1; [|left; reflexivity].
  destruct (generateSignature _ _); [|left; reflexivity].
  destruct (generatePubKey _); [|left; reflexivity].
  rewrite addSignature_unfold.
  destruct (Transaction._serializePubKey _);
    [right; eexists; eexists|left]; reflexivity.
Qed.

(** A call either leaves the transaction alone or sets its signatures to
    one entry made from the transaction. *)
Lemma perform_this_entry (c : Client.call) w :
  Transaction.this (Client.perform c w) = Transaction.this w
  \/ exists pubKeyBuf signature,
       Transaction.this (Client.perform c w)
       = Built.with_signatures (Transaction.this w)
           [Built.entry (Transaction.this w) pubKeyBuf signature].
Proof.
  destruct c as [m | pubKey signature | privateKey m |]; cbn [Client.perform].
  - left. reflexivity.
  - rewrite addSignature_unfold.
    destruct (Transaction._serializePubKey pubKey);
      [right; eexists; eexists|left]; reflexivity.
  - apply sign_this.
  - rewrite serialize_unfold. left. reflexivity.
Qed.

Lemma perform_invariant (c : Client.call) w :
  Transaction.account_number (Transaction.this (Client.perform c w))
  = Transaction.account_number (Transaction.this w)
  /\ Transaction.sequence (Transaction.this (Client.perform c w))
     = Transaction.sequence (Transaction.this w)
  /\ ((List.length (Transaction.signatures (Transaction.this w)) <= 1)%nat ->
      (List.length
         (Transaction.signatures (Transaction.this (Client.perform c w)))
       <= 1)%nat).
Proof.
  destruct (perform_this_entry c w) as [-> | (b & sg & ->)]; cbn; auto.
Qed.

Lemma run_invariant (cs : list Client.call) w :
  Transaction.account_number (Transaction.this (Client.run cs w))
  = Transaction.account_number (Transaction.this w)
  /\ Transaction.sequence (Transaction.this (Client.run cs w))
     = Transaction.sequence (Transaction.this w)
  /\ ((List.length (Transaction.signatures (Transaction.this w)) <= 1)%nat ->
      (List.length (Transaction.signatures (Transaction.this (Client.run cs w)))
       <= 1)%nat).
Proof.
  revert w. induction cs as [|c cs IH]; intros w; [cbn; auto|].
  change (Client.run (c :: cs) w) with (Client.run cs (Client.perform c w)).
  destruct (IH (Client.perform c w)) as (Ha & Hs & Hl).
  destruct (perform_invariant c w) as (Ha' & Hs' & Hl').
  rewrite Ha, Hs, Ha', Hs'. auto.
Qed.

(** C5: [addSignature] sets the signatures to the one entry made of
    the serialized key, the given signature and the transaction's
    account number and sequence, whatever calls came before (other
    [addSignature] calls included); it does so for every key whose
    getters return, with an [x] coordinate of at most 32 bytes, and
    leaves the transaction alone when the key cannot be serialized; and
    no sequence of calls on a constructed transaction leaves more than
    one signature. *)
Theorem addSignature_replaces w (cs : list Client.call)
    (pubKey : BasePoint) (signature : Buffer.t) :
  let w1 := Client.run cs w in
  ((List.length (Transaction.signatures (Transaction.this w)) <= 1)%nat ->
   (List.length (Transaction.signatures (Transaction.this w1)) <= 1)%nat)
  /\ (forall data cs' w',
        Client.session data cs' = Return w' ->
        (List.length (Transaction.signatures (Transaction.this w')) <= 1)%nat)
  /\ (forall x y, getX pubKey = Return (Some x) -> getY pubKey = Return y ->
        (x < 2 ^ 256)%N ->
        returns (Transaction._serializePubKey pubKey) = true)
  /\ match Transaction._serializePubKey pubKey with
     | Throw e => Transaction.addSignature pubKey signature w1 = (Throw e, w1)
     | Return pubKeyBuf =>
         let entry := Built.entry (Transaction.this w) pubKeyBuf signature in
         Transaction.addSignature pubKey signature w1
         = (Return tt,
            {| Transaction.this :=
                 Built.with_signatures (Transaction.this w1) [entry];
               Transaction.events := Transaction.events w1 |})
         /\ Transaction.signatures
              (Transaction.this
                 (Client.run (cs ++ [Client.AddSignature pubKey signature]) w))
            = [entry]
         /\ StdSignature.pub_key entry = pubKeyBuf
         /\ StdSignature.signature entry = signature
         /\ StdSignature.account_number entry
            = Transaction.account_number (Transaction.this w1)
         /\ StdSignature.sequence entry
            = Transaction.sequence (Transaction.this w1)
     end.
Proof.
  intros w1.
  destruct (run_invariant cs w) as (Ha & Hs & Hlen). fold w1 in Ha, Hs, Hlen.
  repeat apply conj.
  - exact Hlen.
  - intros data cs' w' Hsession. unfold Client.session in Hsession.
    pose proof (constructor_returns data) as Hfields.
    destruct (Transaction.constructor data) as [o|e]; [|discriminate].
    cbn in Hsession. injection Hsession as <-.
    destruct (Hfields o eq_refl) as (_ & _ & _ & _ & _ & _ & Hsig).
    apply run_invariant. cbn [Transaction.this]. rewrite Hsig. cbn. lia.
  - intros x y Hx Hy Hlt. pose proof (serializePubKey_cases pubKey) as Hc.
    rewrite Hx, Hy in Hc. now rewrite (byteLength_fits x Hlt) in Hc.
  - pose proof (addSignature_unfold w1 pubKey signature) as Hadd.
    destruct (Transaction._serializePubKey pubKey) as [pubKeyBuf|e];
      [|exact Hadd].
    intros entry.
    assert (Built.entry (Transaction.this w1) pubKeyBuf signature = entry)
      as Hentry by (subst entry; unfold Built.entry; now rewrite Ha, Hs).
    rewrite Hentry in Hadd.
    repeat apply conj.
    + exact Hadd.
    + unfold Client.run. rewrite fold_left_app.
      cbn [fold_left Client.perform].
      fold (Client.run cs w). fold w1. now rewrite Hadd.
    + reflexivity.
    + reflexivity.
    + cbn. now rewrite Ha.
    + cbn. now rewrite Hs.
Qed.

End SingleSigner.

Lemma serialize_unsigned_reaches_renderer_witness :
  Transaction.signatures (Transaction.this Fixture.fresh) = []
  /\ (Transaction.serialize (renderer := Fixture.count_signatures) Fixture.fresh).1
     = Return "00".
Proof.
  split; [reflexivity|].
  exact (proj1 (proj2 (proj2 (serialize_unsigned_reaches_renderer
           (renderer := Fixture.count_signatures) Fixture.fresh eq_refl)))
           [x00] eq_refl).
Defined.

Lemma sign_passes_hex_text_witness :
  Transaction.events
    (Transaction.sign (signer := Fixture.echo) "0a" None Fixture.fresh).2
  = [ Transaction.Call_generateSignature Fixture.expected_hex [x0a];
      Transaction.Console_log
        ("s: " ++ Buffer.toString_hex
                    (Buffer.from_string Fixture.expected_hex))%string;
      Transaction.Call_generatePubKey [x0a] ].
Proof.
  assert ("0a" <> EmptyString) as Hkey by discriminate.
  exact (proj1 (proj2 (proj2 (proj2 (sign_passes_hex_text
           (signer := Fixture.echo) Fixture.fresh "0a" None Hkey))))).
Defined.

Lemma addSignature_replaces_witness :
  Transaction.signatures
    (Transaction.this
       (Client.run (renderer := Fixture.count_signatures)
          (signer := Fixture.echo)
          ([Client.AddSignature Fixture.odd_point [x01]]
           ++ [Client.AddSignature Fixture.odd_point [x02]])
          Fixture.fresh))
  = [Built.entry Fixture.test_chain_tx Fixture.odd_point_bytes [x02]].
Proof.
  exact (proj1 (proj2 (proj2 (proj2 (proj2 (addSignature_replaces
           (renderer := Fixture.count_signatures) (signer := Fixture.echo)
           Fixture.fresh [Client.AddSignature Fixture.odd_point [x01]]
           Fixture.odd_point [x02])))))).
Defined.

(* ================================================================== *)
(** * [SendMsg]: the input coins                                        *)
(* ================================================================== *)

Lemma Number_of_integer_safe (z : Z) :
  Z.abs z <= 2 ^ 53 -> Number_of_integer z = z.
Proof.
  intros Hz. unfold Number_of_integer.
  destruct (Z.ltb_spec (Z.abs z) (2 ^ 53)) as [|Hge]; [reflexivity|].
  assert (Z.abs z = 2 ^ 53) as Habs by lia.
  rewrite Habs.
  destruct (Z.abs_eq_or_opp z) as [Hz'|Hz']; rewrite Hz' in Habs.
  - rewrite Habs. reflexivity.
  - assert (z = - 2 ^ 53) as -> by lia. reflexivity.
Qed.

(** A decimal of [2^53] or more is not read as a smaller number. *)
Lemma Number_of_integer_large (c : Z) :
  2 ^ 53 <= c ->
  exists q e, 1 <= e /\ 2 ^ 52 <= q /\ Number_of_integer c = q * 2 ^ e
    /\ (c - 2 ^ (e - 1) <= q * 2 ^ e <= c + 2 ^ (e - 1)).
Proof.
  intros Hc. unfold Number_of_integer.
  rewrite Z.abs_eq by lia.
  destruct (Z.ltb_spec c (2 ^ 53)) as [|_]; [lia|].
  assert (0 < c) as Hpos by lia.
  pose proof (Z.log2_spec c Hpos) as [Hlo Hhi].
  assert (53 <= Z.log2 c) as Hlog by (apply Z.log2_le_pow2; lia).
  set (e := Z.log2 c - 52) in *.
  assert (1 <= e) as He by lia.
  rewrite Z.shiftr_div_pow2 by lia.
  rewrite Z.land_ones by lia.
  rewrite Z.shiftl_1_l.
  rewrite Z.sgn_pos by lia. rewrite Z.mul_1_l.
  assert (0 < 2 ^ e) as Hpe by (apply Z.pow_pos_nonneg; lia).
  assert (2 ^ e = 2 * 2 ^ (e - 1)) as Hdouble.
  { rewrite <- Z.pow_succ_r by lia. f_equal. lia. }
  assert (0 < 2 ^ (e - 1)) as Hph by (apply Z.pow_pos_nonneg; lia).
  pose proof (Z.div_mod c (2 ^ e) ltac:(lia)) as Hdm.
  pose proof (Z.mod_pos_bound c (2 ^ e) Hpe) as Hmod.
  assert (2 ^ 52 <= c / 2 ^ e) as Hq.
  { apply Z.div_le_lower_bound; [lia|].
    replace (2 ^ e * 2 ^ 52) with (2 ^ Z.log2 c); [lia|].
    rewrite <- Z.pow_add_r by lia. f_equal. lia. }
  set (q := c / 2 ^ e) in *. set (r := c mod 2 ^ e) in *.
  destruct (Z.ltb_spec r (2 ^ (e - 1))).
  - exists q, e. rewrite Z.shiftl_mul_pow2 by lia. repeat split; try lia.
  - destruct (Z.ltb_spec (2 ^ (e - 1)) r).
    + exists (q + 1), e. rewrite Z.shiftl_mul_pow2 by lia.
      repeat split; try lia.
    + destruct (Z.even q).
      * exists q, e. rewrite Z.shiftl_mul_pow2 by lia. repeat split; try lia.
      * exists (q + 1), e. rewrite Z.shiftl_mul_pow2 by lia.
        repeat split; try lia.
Qed.

(** What can be read as a number up to [2^53]: the number itself, and for
    [2^53] also its odd neighbour. *)
Lemma reads_as_safe (n c : Z) :
  0 < n <= 2 ^ 53 -> Big.reads_as n c = true ->
  c = n \/ (n = 2 ^ 53 /\ c = 2 ^ 53 + 1).
Proof.
  intros Hn Hc. unfold Big.reads_as in Hc.
  apply andb_true_iff in Hc as [Hpos Hread].
  apply Z.ltb_lt in Hpos. apply Z.eqb_eq in Hread.
  destruct (Z.le_gt_cases c (2 ^ 53)) as [Hle|Hgt].
  - left. rewrite Number_of_integer_safe in Hread by lia. exact Hread.
  - right.
    destruct (Number_of_integer_large c) as (q & e & He & Hq & Heq & Hnear);
      [lia|].
    rewrite Heq in Hread.
    assert (2 ^ 1 <= 2 ^ e) as Hpow by (apply Z.pow_le_mono_r; lia).
    assert (e = 1) as ->.
    { destruct (Z.eq_dec e 1) as [|Hne]; [assumption|exfalso].
      assert (2 ^ 2 <= 2 ^ e) by (apply Z.pow_le_mono_r; lia).
      nia. }
    change (2 ^ (1 - 1)) with 1 in Hnear. change (2 ^ 1) with 2 in *.
    lia.
Qed.

(** One round of the search, for a number up to [2^53]: the number
    itself is found, or nothing. *)
Lemma shortest_round_safe (n p fallback : Z) :
  0 < n <= 2 ^ 53 -> p = 1 \/ (exists k, 0 < k /\ p = 10 * k) ->
  fallback = n ->
  match Big.reads_as n (n / p * p), Big.reads_as n (n / p * p + p) with
  | true, true => Big.nearer n p (n / p * p) (n / p * p + p)
  | true, false => n / p * p
  | false, true => n / p * p + p
  | false, false => fallback
  end = n.
Proof.
  intros Hn Hp ->.
  assert (Big.reads_as n n = true) as Hself.
  { unfold Big.reads_as. rewrite Number_of_integer_safe by lia.
    apply andb_true_iff. split; [apply Z.ltb_lt; lia|apply Z.eqb_refl]. }
  assert (0 < p) as Hpos by (destruct Hp as [->|(k & Hk & ->)]; lia).
  pose proof (Z.div_mod n p ltac:(lia)) as Hdm.
  pose proof (Z.mod_pos_bound n p Hpos) as Hmod.
  set (lo := n / p * p) in *.
  assert (lo <= n < lo + p) as Hlo by (unfold lo; lia).
  destruct (Big.reads_as n lo) eqn:Hrlo.
  - destruct (reads_as_safe n lo Hn Hrlo) as [Heq|[_ Heq]]; [|lia].
    destruct (Big.reads_as n (lo + p)); [|exact Heq].
    unfold Big.nearer.
    destruct (Z.ltb_spec (n - lo) (lo + p - n)); [exact Heq|lia].
  - destruct (Big.reads_as n (lo + p)) eqn:Hrhi; [|reflexivity].
    destruct (reads_as_safe n (lo + p) Hn Hrhi) as [Heq|[_ Heq]]; [lia|].
    exfalso. destruct Hp as [->|(k & Hk & ->)].
    + assert (lo = n) as Hsame by (unfold lo; rewrite Z.div_1_r; lia).
      rewrite Hsame, Hself in Hrlo. discriminate.
    + assert ((lo + 10 * k) mod 10 = 0) as Hten.
      { replace (lo + 10 * k) with ((n / (10 * k) * k + k) * 10)
          by (unfold lo; lia).
        apply Z.mod_mul. lia. }
      rewrite Heq in Hten. discriminate Hten.
Qed.

Lemma shortest_safe (n : Z) (j : nat) :
  0 < n <= 2 ^ 53 -> Big.shortest n j = n.
Proof.
  intros Hn. induction j as [|j IH].
  - cbn [Big.shortest]. apply shortest_round_safe; auto.
  - cbn [Big.shortest]. apply shortest_round_safe; [exact Hn| |exact IH].
    right. exists (10 ^ Z.of_nat j). split.
    + apply Z.pow_pos_nonneg; lia.
    + rewrite Nat2Z.inj_succ, Z.pow_succ_r by lia. reflexivity.
Qed.

Lemma of_number_safe (n : Z) : Z.abs n <= 2 ^ 53 -> Big.of_number n = n.
Proof.
  intros Hn. unfold Big.of_number.
  destruct (Z.eq_dec n 0) as [->|Hnz]; [reflexivity|].
  rewrite shortest_safe by lia. rewrite Z.mul_comm. apply Z.abs_sgn.
Qed.

Lemma added_safe (held amount : Z) :
  Z.abs held + Z.abs amount <= 2 ^ 53 -> added held amount = held + amount.
Proof.
  intros Hsafe. unfold added, Big.plus.
  rewrite !of_number_safe by lia. apply Number_of_integer_safe. lia.
Qed.

(** What the search finds is read as the number. *)
Lemma shortest_reads_back (n : Z) (j : nat) :
  Number_of_integer n = n ->
  Number_of_integer (Big.shortest n j) = n.
Proof.
  intros Hn. induction j as [|j IH]; cbn [Big.shortest];
    set (p := 10 ^ Z.of_nat _); set (lo := n / p * p);
    destruct (Big.reads_as n lo) eqn:Hlo;
    destruct (Big.reads_as n (lo + p)) eqn:Hhi;
    try assumption;
    try (apply andb_true_iff in Hlo as [_ Hlo]; apply Z.eqb_eq in Hlo);
    try (apply andb_true_iff in Hhi as [_ Hhi]; apply Z.eqb_eq in Hhi);
    try assumption;
    unfold Big.nearer;
    destruct (n - lo <? lo + p - n); try assumption;
    destruct (lo + p - n <? n - lo); try assumption;
    destruct (Z.even (lo / p)); assumption.
Qed.

Lemma Number_of_integer_opp (z : Z) :
  Number_of_integer (- z) = - Number_of_integer z.
Proof.
  unfold Number_of_integer. rewrite Z.abs_opp, Z.sgn_opp.
  destruct (Z.abs z <? 2 ^ 53); [reflexivity|]. lia.
Qed.

(** [Number(String(n))] is [n]. *)
Lemma of_number_reads_back (n : Z) :
  Number_of_integer n = n -> Number_of_integer (Big.of_number n) = n.
Proof.
  intros Hn. unfold Big.of_number.
  destruct (Z.abs_spec n) as [[Hpos ->]|[Hneg ->]].
  - destruct (Z.eq_dec n 0) as [->|Hnz]; [reflexivity|].
    rewrite Z.sgn_pos by lia. rewrite Z.mul_1_l.
    now apply shortest_reads_back.
  - rewrite Z.sgn_neg by lia.
    replace (-1 * Big.shortest (- n) (Z.to_nat (Z.log2 (- n))))
      with (- Big.shortest (- n) (Z.to_nat (Z.log2 (- n)))) by lia.
    rewrite Number_of_integer_opp, shortest_reads_back; [lia|].
    rewrite Number_of_integer_opp. lia.
Qed.

(** Beyond [2^53] the text of a number may differ from it: the held
    amount [2^60] is read as [1152921504606847000], and [105] more makes
    [1152921504606847105], which is read back as the number
    [1152921504606847232]. *)
Lemma added_reads_the_text :
  Big.of_number (2 ^ 60) = 1152921504606847000
  /\ Big.plus (Big.of_number (2 ^ 60)) 105 = 1152921504606847105
  /\ added (2 ^ 60) 105 = 1152921504606847232.
Proof. vm_compute. repeat split. Qed.

Lemma grand_total_app (a b : list Coin.t) :
  grand_total (a ++ b) = grand_total a + grand_total b.
Proof.
  unfold grand_total. induction a as [|c a IH]; cbn; [reflexivity|].
  cbn in IH. rewrite IH. lia.
Qed.

Lemma total_snoc (d : string) (cs : list Coin.t) (c : Coin.t) :
  total d (cs ++ [c])
  = total d cs + (if decide (Coin.denom c = d) then Coin.amount c else 0).
Proof.
  unfold total. rewrite filter_app, grand_total_app. f_equal.
  destruct (decide (Coin.denom c = d)) as [Hd|Hd].
  - rewrite filter_cons_True by exact Hd. cbn. lia.
  - rewrite filter_cons_False by exact Hd. reflexivity.
Qed.

Lemma magnitude_app (a b : list Coin.t) :
  magnitude (a ++ b) = magnitude a + magnitude b.
Proof.
  unfold magnitude. induction a as [|c a IH]; cbn; [reflexivity|].
  cbn in IH. rewrite IH. lia.
Qed.

Lemma magnitude_nonneg (cs : list Coin.t) : 0 <= magnitude cs.
Proof. unfold magnitude. induction cs as [|c cs IH]; cbn in *; lia. Qed.

(** No sum over some of the coins is larger than the magnitude of all. *)
Lemma total_magnitude (d : string) (cs : list Coin.t) :
  Z.abs (total d cs) <= magnitude cs.
Proof.
  unfold total. induction cs as [|c cs IH]; [cbn; lia|].
  change (magnitude (c :: cs)) with (Z.abs (Coin.amount c) + magnitude cs).
  destruct (decide (Coin.denom c = d)) as [Hd|Hd].
  - rewrite filter_cons_True by exact Hd.
    change (grand_total (c :: ?l)) with (Coin.amount c + grand_total l). lia.
  - rewrite filter_cons_False by exact Hd. lia.
Qed.

Lemma total_absent (d : string) (cs : list Coin.t) :
  d ∉ Coin.denom <$> cs -> total d cs = 0.
Proof.
  unfold total. induction cs as [|c cs IH]; [reflexivity|].
  rewrite fmap_cons, not_elem_of_cons. intros [Hd Hcs].
  rewrite filter_cons_False by congruence. auto.
Qed.

(** What [find] finds among the input coins: an object made since the
    start, with the denom looked for; or nothing, when no input coin has
    that denom. *)
Lemma find_denom_collected (h0 vals : list Coin.t) (d : string) :
  match SendMsg.find_denom (h0 ++ vals)
          (seq (List.length h0) (List.length vals)) d with
  | Some e =>
      exists j v, e = (List.length h0 + j)%nat
                  /\ vals !! j = Some v /\ Coin.denom v = d
  | None => d ∉ Coin.denom <$> vals
  end.
Proof.
  unfold SendMsg.find_denom.
  destruct (find _ _) as [e|] eqn:Hfind.
  - apply find_some in Hfind as [Hin Hp]. apply in_seq in Hin.
    cbn beta in Hp. rewrite lookup_app_r in Hp by lia.
    destruct (vals !! (e - List.length h0)%nat) as [v|] eqn:Hv;
      [|discriminate].
    cbn in Hp. apply String.eqb_eq in Hp.
    exists (e - List.length h0)%nat, v.
    repeat apply conj; [lia|exact Hv|exact Hp].
  - intros Hd. apply list_elem_of_fmap in Hd as (v & -> & Hv).
    apply list_elem_of_lookup in Hv as [j Hj].
    pose proof (lookup_lt_Some _ _ _ Hj) as Hlt.
    assert (In (List.length h0 + j)%nat
               (seq (List.length h0) (List.length vals))) as Hin
      by (apply in_seq; lia).
    pose proof (find_none _ _ Hfind _ Hin) as Hp. cbn beta in Hp.
    rewrite lookup_app_r in Hp by lia.
    replace (List.length h0 + j - List.length h0)%nat with j in Hp by lia.
    rewrite Hj in Hp. cbn in Hp. now rewrite String.eqb_refl in Hp.
Qed.

Lemma magnitude_filter (P : Coin.t -> Prop) `{!forall c, Decision (P c)}
    (cs : list Coin.t) :
  magnitude (filter P cs) <= magnitude cs.
Proof.
  induction cs as [|c cs IH]; [reflexivity|].
  change (magnitude (c :: cs)) with (Z.abs (Coin.amount c) + magnitude cs).
  destruct (decide (P c)) as [Hc|Hc].
  - rewrite filter_cons_True by exact Hc.
    change (magnitude (c :: ?l)) with (Z.abs (Coin.amount c) + magnitude l).
    lia.
  - rewrite filter_cons_False by exact Hc. lia.
Qed.

Lemma amounts_of_snoc (d : string) (cs : list Coin.t) (c : Coin.t) :
  amounts_of d (cs ++ [c])
  = amounts_of d cs ++ (if decide (Coin.denom c = d) then [Coin.amount c] else []).
Proof.
  unfold amounts_of. rewrite filter_app, fmap_app. f_equal.
  destruct (decide (Coin.denom c = d)) as [Hd|Hd].
  - now rewrite filter_cons_True by exact Hd.
  - now rewrite filter_cons_False by exact Hd.
Qed.

Lemma amounts_of_absent (d : string) (cs : list Coin.t) :
  d ∉ Coin.denom <$> cs -> amounts_of d cs = [].
Proof.
  unfold amounts_of. induction cs as [|c cs IH]; [reflexivity|].
  rewrite fmap_cons, not_elem_of_cons. intros [Hd Hcs].
  rewrite filter_cons_False by congruence. auto.
Qed.

Lemma amounts_of_present (d : string) (cs : list Coin.t) :
  d ∈ Coin.denom <$> cs -> amounts_of d cs <> [].
Proof.
  unfold amounts_of. intros Hd Hnil.
  apply list_elem_of_fmap in Hd as (c & -> & Hc).
  apply fmap_nil_inv in Hnil.
  assert (c ∈ filter (fun x => Coin.denom x = Coin.denom c) cs) as Hin
    by (apply list_elem_of_filter; now split).
  rewrite Hnil in Hin. now apply elem_of_nil in Hin.
Qed.

(** The running total after one more amount. *)
Lemma running_total_snoc (amounts : list Z) (amount : Z) :
  amounts <> [] ->
  running_total (amounts ++ [amount]) = added (running_total amounts) amount.
Proof.
  destruct amounts as [|first rest]; [congruence|]. intros _.
  cbn [running_total app]. now rewrite fold_left_app.
Qed.

(** Within [2^53] no addition rounds: the running total is the sum. *)
Lemma fold_added_exact (cs : list Coin.t) :
  forall held : Z,
    Z.abs held + magnitude cs <= 2 ^ 53 ->
    fold_left added (Coin.amount <$> cs) held = held + grand_total cs.
Proof.
  induction cs as [|c cs IH]; intros held Hsafe; [cbn; lia|].
  change (magnitude (c :: cs)) with (Z.abs (Coin.amount c) + magnitude cs)
    in Hsafe.
  change (grand_total (c :: cs)) with (Coin.amount c + grand_total cs).
  pose proof (magnitude_nonneg cs) as Hnn.
  cbn [fmap list_fmap fold_left].
  rewrite added_safe by lia. rewrite IH by lia. lia.
Qed.

Lemma running_total_exact (d : string) (cs : list Coin.t) :
  magnitude (filter (fun c => Coin.denom c = d) cs) <= 2 ^ 53 ->
  running_total (amounts_of d cs) = total d cs.
Proof.
  unfold amounts_of, total.
  destruct (filter _ cs) as [|c rest]; [reflexivity|]. intros Hsafe.
  change (magnitude (c :: rest)) with (Z.abs (Coin.amount c) + magnitude rest)
    in Hsafe.
  cbn [fmap list_fmap running_total]. now apply fold_added_exact.
Qed.

(** One round of the loop keeps the invariant. *)
Lemma calInputCoins_step_collected (h0 : store) (cs : list Coin.t)
    (st : store * list ref) (r : ref) (c : Coin.t) :
  collected h0 cs st ->
  h0 !! r = Some c ->
  collected h0 (cs ++ [c]) (SendMsg.calInputCoins_step st r).
Proof.
  intros (vals & Hh & Hic & Hnodup & Hdenoms & Hsums) Hr.
  destruct st as [h ic]. cbn [fst snd] in Hh, Hic. subst h ic.
  unfold SendMsg.calInputCoins_step.
  rewrite lookup_app_l by (eapply lookup_lt_Some; exact Hr). rewrite Hr.
  pose proof (find_denom_collected h0 vals (Coin.denom c)) as Hfind.
  destruct (SendMsg.find_denom _ _ _) as [e|].
  - destruct Hfind as (j & v & -> & Hj & Hd).
    pose proof (lookup_lt_Some _ _ _ Hj) as Hlt.
    rewrite lookup_app_r by lia.
    replace (List.length h0 + j - List.length h0)%nat with j by lia.
    rewrite Hj, insert_app_r.
    fold (added (Coin.amount v) (Coin.amount c)).
    set (u := {| Coin.denom := Coin.denom v;
                 Coin.amount := added (Coin.amount v) (Coin.amount c) |}).
    assert (v ∈ vals) as Hv by (eapply list_elem_of_lookup_2; exact Hj).
    assert (Coin.denom <$> <[j:=u]> vals = Coin.denom <$> vals) as Hsame.
    { rewrite list_fmap_insert. apply list_insert_id.
      rewrite list_lookup_fmap, Hj. reflexivity. }
    assert (Coin.amount u
            = running_total (amounts_of (Coin.denom u) (cs ++ [c]))) as Hu.
    { subst u. cbn [Coin.denom Coin.amount].
      rewrite amounts_of_snoc, decide_True by congruence.
      rewrite running_total_snoc.
      - now rewrite <- (Hsums v Hv).
      - apply amounts_of_present, Hdenoms. now apply list_elem_of_fmap_2. }
    exists (<[j:=u]> vals). cbn [fst snd].
    rewrite length_insert, Hsame. repeat apply conj; try reflexivity.
    + exact Hnodup.
    + intros d. rewrite Hdenoms, fmap_app, elem_of_app. cbn.
      rewrite list_elem_of_singleton. split; [auto|].
      intros [Hin| ->]; [exact Hin|].
      apply Hdenoms. rewrite <- Hd. now apply list_elem_of_fmap_2.
    + intros x Hx. apply list_elem_of_lookup in Hx as [i Hi].
      apply list_lookup_insert_Some in Hi as [(-> & <- & _)|(Hne & Hi)];
        [exact Hu|].
      rewrite amounts_of_snoc, decide_False.
      * rewrite app_nil_r. apply Hsums. eapply list_elem_of_lookup_2; exact Hi.
      * intros Heq. apply Hne.
        apply (NoDup_lookup _ j i (Coin.denom v) Hnodup);
          rewrite list_lookup_fmap; [rewrite Hj|rewrite Hi]; cbn; congruence.
  - exists (vals ++ [c]). cbn [fst snd].
    rewrite <- app_assoc, !length_app. cbn [List.length].
    rewrite seq_app. cbn [seq]. repeat apply conj; try reflexivity.
    + rewrite fmap_app. apply NoDup_app. repeat apply conj.
      * exact Hnodup.
      * intros d Hd Hd'. cbn in Hd'. apply list_elem_of_singleton in Hd'.
        subst d. contradiction.
      * cbn. apply NoDup_singleton.
    + intros d. rewrite !fmap_app, !elem_of_app, Hdenoms. reflexivity.
    + intros x Hx. apply elem_of_app in Hx as [Hx|Hx].
      * rewrite amounts_of_snoc, decide_False.
        -- rewrite app_nil_r. now apply Hsums.
        -- intros Heq. apply Hfind. rewrite Heq. now apply list_elem_of_fmap_2.
      * apply list_elem_of_singleton in Hx. subst x.
        rewrite amounts_of_snoc, decide_True by reflexivity.
        rewrite amounts_of_absent; [reflexivity|]. now rewrite <- Hdenoms.
Qed.

(** The loop over a list of coins, from a state that has collected
    [done] already. *)
Lemma calInputCoins_collected (h0 : store) (rs : list ref) (cs : list Coin.t) :
  Forall2 (fun r c => h0 !! r = Some c) rs cs ->
  forall (done : list Coin.t) (st : store * list ref),
    collected h0 done st ->
    collected h0 (done ++ cs) (SendMsg.calInputCoins st rs).
Proof.
  induction 1 as [|r c rs cs Hr _ IH]; intros done st Hst.
  - now rewrite app_nil_r.
  - change (SendMsg.calInputCoins st (r :: rs))
      with (SendMsg.calInputCoins (SendMsg.calInputCoins_step st r) rs).
    replace (done ++ c :: cs) with ((done ++ [c]) ++ cs)
      by (now rewrite <- app_assoc).
    apply IH. now apply calInputCoins_step_collected.
Qed.

(** Nothing is collected before the loops start. *)
Lemma collected_nothing (h : store) : collected h [] (h, []).
Proof.
  exists []. cbn. rewrite app_nil_r.
  repeat apply conj; try reflexivity; try constructor; auto.
  intros v Hv. now apply elem_of_nil in Hv.
Qed.

(** The two nested loops of [getSignMsg] visit the output coins in
    order. *)
Lemma getSignMsg_loops (outputs : list SignInputOutput.t)
    (st : store * list ref) :
  fold_left
    (fun st item => SendMsg.calInputCoins st (SignInputOutput.coins item))
    outputs st
  = SendMsg.calInputCoins st (List.concat (map SignInputOutput.coins outputs)).
Proof.
  revert st. induction outputs as [|item outputs IH]; intros st; [reflexivity|].
  cbn [fold_left map List.concat]. rewrite IH.
  unfold SendMsg.calInputCoins. now rewrite fold_left_app.
Qed.

Lemma deref_defined (h : store) (rs : list ref) :
  Forall (fun r => is_Some (h !! r)) rs ->
  Forall2 (fun r c => h !! r = Some c) rs (deref h rs).
Proof.
  unfold deref. induction 1 as [|r rs [c Hc] _ IH]; [constructor|].
  cbn [omap list_omap]. rewrite Hc. now constructor.
Qed.

(** Objects are only ever added after the ones that were there. *)
Lemma deref_extend (h vals : store) (rs : list ref) :
  Forall (fun r => is_Some (h !! r)) rs ->
  deref (h ++ vals) rs = deref h rs.
Proof.
  unfold deref. induction 1 as [|r rs [c Hc] _ IH]; [reflexivity|].
  cbn [omap list_omap]. rewrite IH, Hc.
  now rewrite (lookup_app_l_Some _ _ _ _ Hc).
Qed.

Lemma deref_made (h vals : store) :
  deref (h ++ vals) (seq (List.length h) (List.length vals)) = vals.
Proof.
  revert h. induction vals as [|v vals IH]; intros h; [reflexivity|].
  cbn [List.length seq]. unfold deref. cbn [omap list_omap].
  rewrite list_lookup_middle by reflexivity.
  f_equal. specialize (IH (h ++ [v])).
  rewrite <- app_assoc, length_app in IH. cbn [List.length app] in IH.
  replace (List.length h + 1)%nat with (S (List.length h)) in IH by lia.
  exact IH.
Qed.

(** C10, as the code has it: [getSignMsg] returns one input, for the
    sender, whose coins are new objects, one per denom among the output
    coins; the outputs are the ones the message was made with, and no
    object that existed has changed.  Each input coin holds the running
    total of its denom: the amounts of that denom added in order, every
    addition made on the decimal texts of the two numbers and read back
    as a number.  That is the sum of the amounts of the denom when their
    magnitudes add up to [2^53] at most, and when the denom occurs once. *)
Theorem getSignMsg_sums_by_denom (o : SendMsg.t) (h : store) :
  Forall (fun r => is_Some (h !! r)) (SendMsg.output_coins o) ->
  totals_stay_finite (deref h (SendMsg.output_coins o)) ->
  let paid := deref h (SendMsg.output_coins o) in
  let signMsg := (SendMsg.getSignMsg o h).1 in
  let h' := (SendMsg.getSignMsg o h).2 in
  exists inputsCoins : list ref,
    SignedSend.inputs signMsg
    = [ {| SignInputOutput.address := SendMsg.sender o;
           SignInputOutput.coins := inputsCoins |} ]
    /\ SignedSend.outputs signMsg = SendMsg.outputs o
    /\ (forall r c, h !! r = Some c -> h' !! r = Some c)
    /\ deref h' (SendMsg.output_coins o) = paid
    /\ Forall (fun r => (List.length h <= r < List.length h')%nat) inputsCoins
    /\ List.length (deref h' inputsCoins) = List.length inputsCoins
    /\ NoDup (Coin.denom <$> deref h' inputsCoins)
    /\ (forall d, d ∈ Coin.denom <$> deref h' inputsCoins
                  <-> d ∈ Coin.denom <$> paid)
    /\ (forall c, c ∈ deref h' inputsCoins ->
          Coin.amount c = running_total (amounts_of (Coin.denom c) paid))
    /\ (forall c, c ∈ deref h' inputsCoins ->
          magnitude (filter (fun x => Coin.denom x = Coin.denom c) paid)
          <= 2 ^ 53 ->
          Coin.amount c = total (Coin.denom c) paid)
    /\ (forall c amount, c ∈ deref h' inputsCoins ->
          amounts_of (Coin.denom c) paid = [amount] ->
          Coin.amount c = amount /\ total (Coin.denom c) paid = amount).
Proof.
  intros Hwf _ paid signMsg h'.
  assert (collected h paid
            (fold_left
               (fun st item => SendMsg.calInputCoins st (SignInputOutput.coins item))
               (SendMsg.outputs o) (h, []))) as Hcollected.
  { rewrite getSignMsg_loops.
    apply (calInputCoins_collected h _ paid (deref_defined h _ Hwf) [] (h, [])).
    apply collected_nothing. }
  destruct Hcollected as (vals & Hh & Hic & Hnodup & Hdenoms & Hsums).
  subst signMsg h'. unfold SendMsg.getSignMsg. cbn [fst snd].
  rewrite Hh, Hic. cbn [SignedSend.inputs SignedSend.outputs].
  eexists. split; [reflexivity|].
  rewrite deref_made, length_seq, length_app.
  repeat apply conj.
  - reflexivity.
  - intros r c Hr. now apply lookup_app_l_Some.
  - now apply deref_extend.
  - apply Forall_forall. intros r Hr. apply elem_of_seq in Hr. lia.
  - reflexivity.
  - exact Hnodup.
  - exact Hdenoms.
  - exact Hsums.
  - intros c Hc Hsafe. rewrite (Hsums c Hc). now apply running_total_exact.
  - intros c amount Hc Honce. rewrite (Hsums c Hc), Honce.
    split; [reflexivity|]. unfold amounts_of in Honce. unfold total.
    destruct (filter _ paid) as [|x [|y rest]]; try discriminate Honce.
    injection Honce as <-. cbn. lia.
Qed.

Lemma getSignMsg_sums_by_denom_witness :
  let signMsg := (SendMsg.getSignMsg Fixture.mixed_output Fixture.mixed_coins).1 in
  let h' := (SendMsg.getSignMsg Fixture.mixed_output Fixture.mixed_coins).2 in
  exists inputsCoins : list ref,
    SignedSend.inputs signMsg
    = [ {| SignInputOutput.address := "me";
           SignInputOutput.coins := inputsCoins |} ]
    /\ deref h' inputsCoins
       = [ {| Coin.denom := "BNB"; Coin.amount := 1152921504606847232 |};
           {| Coin.denom := "BTC"; Coin.amount := 5 |} ]
    /\ deref h' (SendMsg.output_coins Fixture.mixed_output)
       = deref Fixture.mixed_coins (SendMsg.output_coins Fixture.mixed_output).
Proof.
  destruct (getSignMsg_sums_by_denom Fixture.mixed_output Fixture.mixed_coins)
    as (inputsCoins & Hin & _ & _ & Hout & _).
  - repeat constructor; eexists; reflexivity.
  - repeat constructor; vm_compute; repeat split.
  - exists inputsCoins. cbv zeta. repeat apply conj.
    + exact Hin.
    + injection Hin as <-. vm_compute. reflexivity.
    + exact Hout.
Defined.

(** C10 as stated fails beyond the safe integers: two coins of one
    denom, of amounts [2^53] and [1], give an input coin of amount [2^53],
    which is not their sum. *)
Lemma getSignMsg_rounds_large_sums :
  let result := SendMsg.getSignMsg Fixture.large_output Fixture.large_coins in
  let h' := result.2 in
  let signMsg := result.1 in
  let paid :=
    deref Fixture.large_coins (SendMsg.output_coins Fixture.large_output) in
  exists r c,
    SignedSend.inputs signMsg
    = [ {| SignInputOutput.address := "me"; SignInputOutput.coins := [r] |} ]
    /\ h' !! r = Some c
    /\ Coin.denom c = "BNB"
    /\ Coin.amount c = 9007199254740992
    /\ total "BNB" paid = 9007199254740993
    /\ Coin.amount c <> total (Coin.denom c) paid.
Proof.
  eexists. eexists. repeat apply conj; try reflexivity.
  vm_compute. discriminate.
Qed.

(* ================================================================== *)
(** * [SendMsg]: the input coins by value                               *)
(* ================================================================== *)

(** [find] over the references of the input coins is [list_find] over
    their values. *)
Lemma find_denom_values (vals h0 : list Coin.t) (d : string) :
  SendMsg.find_denom (h0 ++ vals) (seq (List.length h0) (List.length vals)) d
  = (fun jv => (List.length h0 + jv.1)%nat)
      <$> list_find (fun v => Coin.denom v = d) vals.
Proof.
  unfold SendMsg.find_denom. revert h0.
  induction vals as [|v vals IH]; intros h0; [reflexivity|].
  cbn [List.length seq find list_find].
  rewrite list_lookup_middle by reflexivity. cbn [from_option].
  destruct (decide (Coin.denom v = d)) as [Hd|Hd].
  - apply String.eqb_eq in Hd. rewrite Hd. cbn. f_equal. lia.
  - apply String.eqb_neq in Hd. rewrite Hd.
    specialize (IH (h0 ++ [v])).
    rewrite <- app_assoc, length_app in IH. cbn [List.length app] in IH.
    replace (List.length h0 + 1)%nat with (S (List.length h0)) in IH by lia.
    rewrite IH. destruct (list_find _ vals) as [[j x]|]; cbn; [|reflexivity].
    f_equal. lia.
Qed.

(** One round of the loop, on the values. *)
Lemma calInputCoins_step_values (h0 vals : list Coin.t) (r : ref) (c : Coin.t) :
  h0 !! r = Some c ->
  SendMsg.calInputCoins_step
    (h0 ++ vals, seq (List.length h0) (List.length vals)) r
  = (h0 ++ add_coin vals c,
     seq (List.length h0) (List.length (add_coin vals c))).
Proof.
  intros Hr. unfold SendMsg.calInputCoins_step, add_coin.
  rewrite lookup_app_l by (eapply lookup_lt_Some; exact Hr). rewrite Hr.
  rewrite find_denom_values.
  destruct (list_find _ vals) as [[j v]|] eqn:Hfind; cbn [fmap option_fmap option_map fst].
  - apply list_find_Some in Hfind as (Hj & _ & _).
    rewrite lookup_app_r by lia.
    replace (List.length h0 + j - List.length h0)%nat with j by lia.
    rewrite Hj, insert_app_r, length_insert. reflexivity.
  - rewrite <- app_assoc, !length_app, seq_app. reflexivity.
Qed.

Lemma calInputCoins_values (h0 : list Coin.t) (rs : list ref) (cs : list Coin.t) :
  Forall2 (fun r c => h0 !! r = Some c) rs cs ->
  forall vals : list Coin.t,
    SendMsg.calInputCoins
      (h0 ++ vals, seq (List.length h0) (List.length vals)) rs
    = (h0 ++ fold_left add_coin cs vals,
       seq (List.length h0) (List.length (fold_left add_coin cs vals))).
Proof.
  induction 1 as [|r c rs cs Hr _ IH]; intros vals; [reflexivity|].
  change (SendMsg.calInputCoins ?st (r :: rs))
    with (SendMsg.calInputCoins (SendMsg.calInputCoins_step st r) rs).
  rewrite (calInputCoins_step_values h0 vals r c Hr). apply IH.
Qed.

(** [getSignMsg] by value: the store gains the input coins, which are a
    function of the values of the output coins, and nothing else
    changes. *)
Lemma getSignMsg_values (o : SendMsg.t) (h : store) :
  Forall (fun r => is_Some (h !! r)) (SendMsg.output_coins o) ->
  let vals := input_coins (deref h (SendMsg.output_coins o)) in
  SendMsg.getSignMsg o h
  = ({| SignedSend.inputs :=
          [ {| SignInputOutput.address := SendMsg.sender o;
               SignInputOutput.coins :=
                 seq (List.length h) (List.length vals) |} ];
        SignedSend.outputs := SendMsg.outputs o |},
     h ++ vals).
Proof.
  intros Hwf vals. unfold SendMsg.getSignMsg. rewrite getSignMsg_loops.
  pose proof (calInputCoins_values h _ _ (deref_defined h _ Hwf) []) as Hfold.
  rewrite app_nil_r in Hfold. cbn [List.length seq] in Hfold.
  fold (SendMsg.output_coins o). rewrite Hfold. reflexivity.
Qed.

(** The input coin for two coins of one denom, of amounts [2^60] and
    [105]: the text of the first is read, not its value. *)
Lemma input_coins_reads_the_text :
  input_coins [ {| Coin.denom := "BNB"; Coin.amount := 2 ^ 60 |};
                {| Coin.denom := "BNB"; Coin.amount := 105 |} ]
  = [ {| Coin.denom := "BNB"; Coin.amount := 1152921504606847232 |} ].
Proof. vm_compute. reflexivity. Qed.







Lemma deref_older (h vals more : list Coin.t) :
  deref ((h ++ vals) ++ more) (seq (List.length h) (List.length vals)) = vals.
Proof.
  rewrite deref_extend; [apply deref_made|].
  apply Forall_forall. intros r Hr. apply elem_of_seq in Hr.
  apply lookup_lt_is_Some. rewrite length_app. lia.
Qed.

(** X8: [getSignMsg] can be called again: the second call makes new
    objects that hold the same denoms and amounts as those of the first
    call (the running totals of the denoms, no total overflowing), and
    changes neither the coins of the outputs nor the input coins the
    first call returned. *)
Theorem getSignMsg_repeatable (o : SendMsg.t) (h : store) :
  Forall (fun r => is_Some (h !! r)) (SendMsg.output_coins o) ->
  totals_stay_finite (deref h (SendMsg.output_coins o)) ->
  let first := SendMsg.getSignMsg o h in
  let second := SendMsg.getSignMsg o first.2 in
  exists inputs1 inputs2 : list ref,
    SignedSend.inputs first.1
    = [ {| SignInputOutput.address := SendMsg.sender o;
           SignInputOutput.coins := inputs1 |} ]
    /\ SignedSend.inputs second.1
       = [ {| SignInputOutput.address := SendMsg.sender o;
              SignInputOutput.coins := inputs2 |} ]
    /\ deref first.2 inputs1 = input_coins (deref h (SendMsg.output_coins o))
    /\ deref second.2 inputs2 = deref first.2 inputs1
    /\ deref second.2 inputs1 = deref first.2 inputs1
    /\ deref second.2 (SendMsg.output_coins o)
       = deref h (SendMsg.output_coins o)
    /\ (forall r, r ∈ inputs1 -> r ∉ inputs2).
Proof.
  intros Hwf _ first second. subst second first.
  rewrite (getSignMsg_values o h Hwf). cbn [fst snd].
  set (vals := input_coins (deref h (SendMsg.output_coins o))).
  assert (Forall (fun r => is_Some ((h ++ vals) !! r))
            (SendMsg.output_coins o)) as Hwf'.
  { eapply Forall_impl; [exact Hwf|]. intros r [c Hc]. exists c.
    now apply lookup_app_l_Some. }
  rewrite (getSignMsg_values o _ Hwf'). cbn [fst snd SignedSend.inputs].
  rewrite (deref_extend h _ _ Hwf). fold vals.
  eexists. eexists. split; [reflexivity|]. split; [reflexivity|].
  rewrite deref_made, deref_made, deref_older.
  rewrite (deref_extend (h ++ vals) _ _ Hwf'), (deref_extend h _ _ Hwf).
  repeat apply conj; try reflexivity.
  intros r Hr Hr'. apply elem_of_seq in Hr, Hr'.
  rewrite length_app in Hr'. lia.
Qed.

(* ================================================================== *)
(** * [SendMsg]: what goes in is what goes out                          *)
(* ================================================================== *)

Lemma grand_total_filter_split (d : string) (cs : list Coin.t) :
  grand_total cs
  = total d cs + grand_total (filter (fun c => Coin.denom c <> d) cs).
Proof.
  unfold total. induction cs as [|c cs IH]; [reflexivity|].
  change (grand_total (c :: cs)) with (Coin.amount c + grand_total cs).
  destruct (decide (Coin.denom c = d)) as [Hd|Hd].
  - rewrite filter_cons_True by exact Hd.
    rewrite (filter_cons_False (fun c => Coin.denom c <> d)) by tauto.
    change (grand_total (c :: ?l)) with (Coin.amount c + grand_total l). lia.
  - rewrite filter_cons_False by exact Hd.
    rewrite (filter_cons_True (fun c => Coin.denom c <> d)) by exact Hd.
    change (grand_total (c :: ?l)) with (Coin.amount c + grand_total l). lia.
Qed.

(** Coins of distinct denoms that hold the sums of their denoms hold,
    together, the sum of everything. *)
Lemma grand_total_by_denom (vals : list Coin.t) :
  forall cs : list Coin.t,
    NoDup (Coin.denom <$> vals) ->
    (forall d, d ∈ Coin.denom <$> vals <-> d ∈ Coin.denom <$> cs) ->
    (forall v, v ∈ vals -> Coin.amount v = total (Coin.denom v) cs) ->
    grand_total vals = grand_total cs.
Proof.
  induction vals as [|v vals IH]; intros cs Hnodup Hdenoms Hsums.
  - destruct cs as [|c cs]; [reflexivity|].
    exfalso. apply (not_elem_of_nil (Coin.denom c)). apply Hdenoms.
    rewrite fmap_cons. apply elem_of_cons. now left.
  - rewrite fmap_cons in Hnodup. apply NoDup_cons in Hnodup as [Hv Hnodup].
    change (grand_total (v :: vals)) with (Coin.amount v + grand_total vals).
    rewrite (grand_total_filter_split (Coin.denom v) cs).
    rewrite (Hsums v) by (apply elem_of_cons; now left). f_equal.
    apply IH; [exact Hnodup| |].
    + intros d. split.
      * intros Hd.
        assert (d <> Coin.denom v) as Hne by (intros ->; contradiction).
        assert (d ∈ Coin.denom <$> cs) as Hin
          by (apply Hdenoms; rewrite fmap_cons; apply elem_of_cons; now right).
        apply list_elem_of_fmap in Hin as (c & -> & Hc).
        apply list_elem_of_fmap_2, list_elem_of_filter. now split.
      * intros Hd. apply list_elem_of_fmap in Hd as (c & -> & Hc).
        apply list_elem_of_filter in Hc as [Hne Hc].
        assert (Coin.denom c ∈ Coin.denom <$> v :: vals) as Hin
          by (apply Hdenoms; now apply list_elem_of_fmap_2).
        rewrite fmap_cons in Hin. apply elem_of_cons in Hin as [Heq|Hin];
          [contradiction|exact Hin].
    + intros x Hx. rewrite (Hsums x) by (apply elem_of_cons; now right).
      unfold total. f_equal. symmetry. apply list_filter_filter_l.
      intros c -> Heq. apply Hv. rewrite <- Heq. now apply list_elem_of_fmap_2.
Qed.

(** X9: within the safe integers, the amounts of the input coins of
    [getSignMsg] add up to the amounts of the output coins. *)
Theorem getSignMsg_balances (o : SendMsg.t) (h : store) :
  Forall (fun r => is_Some (h !! r)) (SendMsg.output_coins o) ->
  magnitude (deref h (SendMsg.output_coins o)) <= MAX_SAFE_INTEGER ->
  let result := SendMsg.getSignMsg o h in
  exists inputsCoins : list ref,
    SignedSend.inputs result.1
    = [ {| SignInputOutput.address := SendMsg.sender o;
           SignInputOutput.coins := inputsCoins |} ]
    /\ grand_total (deref result.2 inputsCoins)
       = grand_total (deref result.2 (SendMsg.output_coins o))
    /\ grand_total (deref result.2 (SendMsg.output_coins o))
       = grand_total (deref h (SendMsg.output_coins o)).
Proof.
  intros Hwf Hsafe result. subst result.
  pose proof (calInputCoins_collected h _ _ (deref_defined h _ Hwf) []
                (h, []) (collected_nothing h)) as Hcollected.
  cbn [app] in Hcollected.
  destruct Hcollected as (vals & Hh & _ & Hnodup & Hdenoms & Hsums).
  pose proof (calInputCoins_values h _ _ (deref_defined h _ Hwf) [])
    as Hvalues.
  rewrite app_nil_r in Hvalues. cbn [List.length seq] in Hvalues.
  rewrite Hvalues in Hh. cbn [fst] in Hh. apply app_inv_head in Hh.
  fold (input_coins (deref h (SendMsg.output_coins o))) in Hh.
  rewrite (getSignMsg_values o h Hwf). cbn [fst snd SignedSend.inputs].
  eexists. split; [reflexivity|].
  rewrite deref_made, (deref_extend h _ _ Hwf). split; [|reflexivity].
  rewrite Hh. apply grand_total_by_denom; [exact Hnodup|exact Hdenoms|].
  intros v Hv. rewrite (Hsums v Hv). apply running_total_exact.
  pose proof (magnitude_filter (fun c => Coin.denom c = Coin.denom v)
                (deref h (SendMsg.output_coins o))) as Hfilter.
  unfold MAX_SAFE_INTEGER in Hsafe. lia.
Qed.

(* ================================================================== *)
(** * [SendMsg.getMsg]                                                  *)
(* ================================================================== *)

Section GetMsgFacts.
Context {codec : AddressCodec}.

(** Once an address has failed, the loop is over. *)
Lemma getMsg_step_thrown (items : list SignInputOutput.t) (e : js_error)
    (st : store * list ref) :
  fold_left SendWire.getMsg_step items (Throw e, st) = (Throw e, st).
Proof. induction items as [|item items IH]; [reflexivity|exact IH]. Qed.

(** The loop of [getMsg]: either every address decodes, and the coins
    are collected as by [getSignMsg]; or the loop ends at the first
    address that does not, after the coins of that output. *)
Lemma getMsg_loop (items : list SignInputOutput.t) :
  forall (outs : list InputOutput.t) (st : store * list ref),
    let r := fold_left SendWire.getMsg_step items (Return outs, st) in
    match r.1 with
    | Return outs' =>
        exists new, outs' = outs ++ new
                    /\ Forall2 wire_of items new
                    /\ r.2 = fold_left
                               (fun st item =>
                                  SendMsg.calInputCoins st
                                    (SignInputOutput.coins item))
                               items st
    | Throw e =>
        exists pre item post,
          items = pre ++ item :: post
          /\ Forall (fun i => returns (decodeAddress (SignInputOutput.address i))
                              = true) pre
          /\ decodeAddress (SignInputOutput.address item) = Throw e
          /\ r.2 = fold_left
                     (fun st item =>
                        SendMsg.calInputCoins st (SignInputOutput.coins item))
                     (pre ++ [item]) st
    end.
Proof.
  induction items as [|item items IH]; intros outs st.
  - cbn. exists []. rewrite app_nil_r. repeat apply conj; try reflexivity.
    constructor.
  - cbv zeta. cbn [fold_left].
    assert (SendWire.getMsg_step (Return outs, st) item
            = match decodeAddress (SignInputOutput.address item) with
              | Throw e =>
                  (Throw e,
                   SendMsg.calInputCoins st (SignInputOutput.coins item))
              | Return a =>
                  (Return (outs ++ [{| InputOutput.address := a;
                                       InputOutput.coins :=
                                         SignInputOutput.coins item |}]),
                   SendMsg.calInputCoins st (SignInputOutput.coins item))
              end) as -> by reflexivity.
    destruct (decodeAddress (SignInputOutput.address item)) as [a|e] eqn:Ha.
    + specialize (IH (outs ++ [{| InputOutput.address := a;
                                  InputOutput.coins :=
                                    SignInputOutput.coins item |}])
                     (SendMsg.calInputCoins st (SignInputOutput.coins item))).
      cbv zeta in IH |- *.
      destruct (fold_left SendWire.getMsg_step items _) as [[outs'|e] st'];
        cbn [fst snd] in *.
      * destruct IH as (new & -> & Hnew & ->).
        eexists (_ :: new). rewrite <- app_assoc.
        repeat apply conj; try reflexivity.
        constructor; [|exact Hnew]. split; [exact Ha|reflexivity].
      * destruct IH as (pre & bad & post & -> & Hpre & Hbad & ->).
        exists (item :: pre), bad, post.
        repeat apply conj; try reflexivity; [|exact Hbad].
        constructor; [now rewrite Ha|exact Hpre].
    + rewrite getMsg_step_thrown. cbn [fst snd].
      exists [], item, items.
      repeat apply conj; try reflexivity; [constructor|exact Ha].
Qed.

(** X10: when [getMsg] returns, it leaves the store as [getSignMsg] does
    and its one input holds the same coins as the input of [getSignMsg],
    under the decoded address of the sender; its outputs are the outputs
    of the message in order, each with its address decoded and the same
    coins; and the prefix is that of [MsgSend]. *)
Theorem getMsg_agrees_with_getSignMsg (o : SendMsg.t) (h : store)
    (msg : SendData.t) :
  (SendWire.getMsg o h).1 = Return msg ->
  (SendWire.getMsg o h).2 = (SendMsg.getSignMsg o h).2
  /\ (exists address inputsCoins,
        decodeAddress (SendMsg.sender o) = Return address
        /\ SignedSend.inputs (SendMsg.getSignMsg o h).1
           = [ {| SignInputOutput.address := SendMsg.sender o;
                  SignInputOutput.coins := inputsCoins |} ]
        /\ SendData.inputs msg
           = [ {| InputOutput.address := address;
                  InputOutput.coins := inputsCoins |} ])
  /\ Forall2 wire_of (SendMsg.outputs o) (SendData.outputs msg)
  /\ SendData.aminoPrefix msg = TxAminoPrefix.MsgSend.
Proof.
  unfold SendWire.getMsg, SendMsg.getSignMsg.
  destruct (decodeAddress (SendMsg.sender o)) as [a|e]; [|discriminate].
  pose proof (getMsg_loop (SendMsg.outputs o) [] (h, [])) as Hloop.
  cbv zeta in Hloop. cbn [fst snd].
  destruct (fold_left SendWire.getMsg_step _ _) as [[outs|e] st];
    cbn [fst snd] in *; [|discriminate].
  destruct Hloop as (new & -> & Hnew & ->). cbn [app].
  intros [= <-]. cbn [SendData.inputs SendData.outputs SendData.aminoPrefix].
  repeat apply conj; try reflexivity.
  - exists a. eexists. repeat split.
  - exact Hnew.
Qed.


End GetMsgFacts.

(* ================================================================== *)
(** * More on the public key and the payload                            *)
(* ================================================================== *)

(** X5: the serialized key tells the [x] coordinate and the parity of
    [y] (a missing [y] counting as even), and nothing more: two points
    with [x] coordinates of at most 32 bytes have the same serialization
    exactly when they agree on both. *)
Theorem serializePubKey_injective (x1 x2 : N) (y1 y2 : option N) :
  (x1 < 2 ^ 256)%N ->
  (x2 < 2 ^ 256)%N ->
  Transaction._serializePubKey
    {| getX := Return (Some x1); getY := Return y1 |}
  = Transaction._serializePubKey
      {| getX := Return (Some x2); getY := Return y2 |}
  <-> x1 = x2
      /\ from_option BN.isOdd false y1 = from_option BN.isOdd false y2.
Proof.
  intros H1 H2.
  rewrite (serializePubKey_with_x x1 y1 H1), (serializePubKey_with_x x2 y2 H2).
  split.
  - intros Heq.
    apply (f_equal (fun c => match c with Return b => b | Throw _ => [] end))
      in Heq.
    pose proof (f_equal (drop 6) Heq) as Hbytes.
    pose proof (f_equal (fun b : list byte => b !! 5%nat) Heq) as Htag.
    cbn [app drop lookup list_lookup] in Hbytes, Htag.
    rewrite !drop_0 in Hbytes.
    apply (f_equal Buffer.be_value) in Hbytes.
    rewrite !be_value_be_bytes in Hbytes.
    change (256 ^ N.of_nat 32)%N with (2 ^ 256)%N in Hbytes.
    rewrite !N.mod_small in Hbytes by assumption.
    split; [exact Hbytes|].
    destruct (from_option BN.isOdd false y1), (from_option BN.isOdd false y2);
      (reflexivity || discriminate Htag).
  - intros [-> ->]. reflexivity.
Qed.

Lemma serializePubKey_injective_witness :
  Transaction._serializePubKey
    {| getX := Return (Some 7%N); getY := Return (Some 9%N) |}
  = Transaction._serializePubKey
      {| getX := Return (Some 7%N); getY := Return (Some 3%N) |}.
Proof.
  apply (serializePubKey_injective 7 7 (Some 9%N) (Some 3%N)); [reflexivity ..|].
  split; reflexivity.
Defined.

Section Payload.
Context {Wire : Type}.
Implicit Types (o : Transaction.t Wire).

(** X6: the payload to sign tells the account number, the chain id, the
    memo, the sequence, the source and the message: two payloads are
    equal exactly when all six are. *)
Theorem signMsg_injective o1 o2 (m1 m2 : jsval) :
  Transaction.signMsg o1 m1 = Transaction.signMsg o2 m2
  <-> Transaction.account_number o1 = Transaction.account_number o2
      /\ Transaction.chain_id o1 = Transaction.chain_id o2
      /\ Transaction.memo o1 = Transaction.memo o2
      /\ Transaction.sequence o1 = Transaction.sequence o2
      /\ Transaction.source o1 = Transaction.source o2
      /\ m1 = m2.
Proof.
  unfold Transaction.signMsg, Number_toString. split.
  - intros [= Ha Hc Hmemo Hm Hs Hsrc].
    apply (inj pretty) in Ha, Hs, Hsrc.
    repeat apply conj; try assumption.
    destruct (Transaction.memo o1), (Transaction.memo o2);
      cbn in Hmemo; congruence.
  - intros (-> & -> & -> & -> & -> & ->). reflexivity.
Qed.

End Payload.

(* ================================================================== *)
(** * The transaction: how the calls compose                            *)
(* ================================================================== *)

Section Composition.
Context {Wire : Type} {renderer : WireEncoder Wire} {signer : Crypto}.
Implicit Types (w : Transaction.world Wire) (o : Transaction.t Wire).

(** The sign bytes do not depend on the signatures or on the effects so
    far. *)
Lemma getSignBytes_fields w1 w2 (m : option jsval) :
  Transaction.signMsg (Transaction.this w1)
    (js_or m (getSignMsg (Transaction.msg (Transaction.this w1))))
  = Transaction.signMsg (Transaction.this w2)
      (js_or m (getSignMsg (Transaction.msg (Transaction.this w2)))) ->
  (Transaction.getSignBytes m w1).1 = (Transaction.getSignBytes m w2).1.
Proof. intros H. rewrite !getSignBytes_unfold. cbn [fst]. now rewrite H. Qed.

(** The ways [sign] can end with a key: at the sign bytes, at the
    signer, at the key derivation, at the serialization of the key, or
    with the signature attached. *)
Lemma sign_paths w (privateKey : string) (m : option jsval) :
  privateKey <> EmptyString ->
  let privKeyBuf := Buffer.from_hex privateKey in
  Transaction.sign privateKey m w
  = match (Transaction.getSignBytes m w).1 with
    | Throw e => (Throw e, w)
    | Return signBytes =>
        match generateSignature (Buffer.toString_hex signBytes) privKeyBuf with
        | Throw e =>
            (Throw e,
             {| Transaction.this := Transaction.this w;
                Transaction.events :=
                  Transaction.events w
                  ++ Built.signer_called signBytes privateKey |})
        | Return signature =>
            let events' :=
              Transaction.events w
              ++ Built.sign_events signBytes privateKey signature in
            match generatePubKey privKeyBuf with
            | Throw e =>
                (Throw e, {| Transaction.this := Transaction.this w;
                             Transaction.events := events' |})
            | Return pubKey =>
                match Transaction._serializePubKey pubKey with
                | Throw e =>
                    (Throw e, {| Transaction.this := Transaction.this w;
                                 Transaction.events := events' |})
                | Return pubKeyBuf =>
                    (Return tt,
                     {| Transaction.this :=
                          Built.with_signatures (Transaction.this w)
                            [Built.entry (Transaction.this w) pubKeyBuf
                               signature];
                        Transaction.events := events' |})
                end
            end
        end
    end.
Proof.
  intros Hkey privKeyBuf. destruct privateKey as [|a s]; [congruence|].
  rewrite sign_unfold. fold privKeyBuf.
  destruct (Transaction.getSignBytes m w).1 as [signBytes|e]; [|reflexivity].
  destruct (generateSignature _ _) as [signature|e]; [|reflexivity].
  cbv zeta.
  destruct (generatePubKey _) as [pubKey|e]; [|reflexivity].
  rewrite addSignature_unfold.
  destruct (Transaction._serializePubKey _); reflexivity.
Qed.

(** X1: [sign] either returns, and then the transaction holds exactly
    one signature, made of the serialized derived key and of what the
    signer returned, and is otherwise as before; or throws, and then the
    transaction is exactly as before.  It throws when the key is empty
    (the missing-key error, nothing else done), when the sign bytes
    cannot be produced, when the signer throws, when the key derivation
    throws, or when the derived public key cannot be serialized. *)
Theorem sign_all_or_nothing w (privateKey : string) (m : option jsval) :
  let outcome := (Transaction.sign privateKey m w).1 in
  let w' := (Transaction.sign privateKey m w).2 in
  let privKeyBuf := Buffer.from_hex privateKey in
  match outcome with
  | Return _ =>
      privateKey <> EmptyString
      /\ exists signBytes signature pubKey pubKeyBuf,
           (Transaction.getSignBytes m w).1 = Return signBytes
           /\ generateSignature (Buffer.toString_hex signBytes) privKeyBuf
              = Return signature
           /\ generatePubKey privKeyBuf = Return pubKey
           /\ Transaction._serializePubKey pubKey = Return pubKeyBuf
           /\ Transaction.this w'
              = Built.with_signatures (Transaction.this w)
                  [Built.entry (Transaction.this w) pubKeyBuf signature]
  | Throw e =>
      Transaction.this w' = Transaction.this w
      /\ ((privateKey = EmptyString /\ MissingKeyError e /\ w' = w)
          \/ (privateKey <> EmptyString
              /\ (Transaction.getSignBytes m w).1 = Throw e /\ w' = w)
          \/ (privateKey <> EmptyString
              /\ exists signBytes,
                   (Transaction.getSignBytes m w).1 = Return signBytes
                   /\ (generateSignature (Buffer.toString_hex signBytes)
                         privKeyBuf = Throw e
                       \/ exists signature,
                            generateSignature (Buffer.toString_hex signBytes)
                              privKeyBuf = Return signature
                            /\ (generatePubKey privKeyBuf = Throw e
                                \/ exists pubKey,
                                     generatePubKey privKeyBuf = Return pubKey
                                     /\ Transaction._serializePubKey pubKey
                                        = Throw e))))
  end.
Proof.
  intros outcome w' privKeyBuf. subst outcome w'.
  destruct (decide (privateKey = EmptyString)) as [->|Hkey].
  { cbn [fst snd Transaction.sign truthy string_truthy negb Transaction.throw].
    split; [reflexivity|]. left. repeat split. }
  rewrite (sign_paths w privateKey m Hkey). fold privKeyBuf.
  destruct (Transaction.getSignBytes m w).1 as [signBytes|e].
  2:{ cbn [fst snd]. split; [reflexivity|]. right. left. repeat split.
      exact Hkey. }
  destruct (generateSignature _ _) as [signature|e] eqn:Hsig.
  2:{ cbn [fst snd Transaction.this]. split; [reflexivity|]. right. right.
      split; [exact Hkey|]. exists signBytes. split; [reflexivity|].
      left. exact Hsig. }
  cbv zeta. destruct (generatePubKey _) as [pubKey|e] eqn:Hpub.
  2:{ cbn [fst snd Transaction.this]. split; [reflexivity|]. right. right.
      split; [exact Hkey|]. exists signBytes. split; [reflexivity|].
      right. exists signature. split; [exact Hsig|]. now left. }
  destruct (Transaction._serializePubKey _) as [pubKeyBuf|e] eqn:Hbuf;
    cbn [fst snd Transaction.this].
  - split; [exact Hkey|]. exists signBytes, signature, pubKey, pubKeyBuf.
    repeat split; assumption.
  - split; [reflexivity|]. right. right.
    split; [exact Hkey|]. exists signBytes. split; [reflexivity|].
    right. exists signature. split; [exact Hsig|]. right.
    exists pubKey. split; [reflexivity|exact Hbuf].
Qed.

(** X2: [tx.sign(key).serialize()]: after a [sign] that returned,
    [serialize] asks the message for its wire form and fails as that call
    fails; otherwise it hands the wire renderer that wire form, the one
    signature (the serialized derived key, the signature over the hex
    text of the sign bytes, the account number and the sequence), the
    memo, the source, empty data and the [StdTx] prefix, returns the
    lower-case hex text of the renderer's bytes, and changes nothing. *)
Theorem sign_then_serialize w (privateKey : string) (m : option jsval) :
  (Transaction.sign privateKey m w).1 = Return tt ->
  let w' := (Transaction.sign privateKey m w).2 in
  let privKeyBuf := Buffer.from_hex privateKey in
  exists signBytes signature pubKey pubKeyBuf,
    (Transaction.getSignBytes m w).1 = Return signBytes
    /\ generateSignature (Buffer.toString_hex signBytes) privKeyBuf
       = Return signature
    /\ generatePubKey privKeyBuf = Return pubKey
    /\ Transaction._serializePubKey pubKey = Return pubKeyBuf
    /\ match getMsg (Transaction.msg (Transaction.this w)) with
       | Throw e => Transaction.serialize w' = (Throw e, w')
       | Return wire =>
           let envelope :=
             {| StdTx.msg := [wire];
                StdTx.signatures :=
                  [ {| StdSignature.pub_key := pubKeyBuf;
                       StdSignature.signature := signature;
                       StdSignature.account_number :=
                         Transaction.account_number (Transaction.this w);
                       StdSignature.sequence :=
                         Transaction.sequence (Transaction.this w) |} ];
                StdTx.memo := Transaction.memo (Transaction.this w);
                StdTx.source := Transaction.source (Transaction.this w);
                StdTx.data := EmptyString;
                StdTx.aminoPrefix := TxAminoPrefix.StdTx |} in
           Transaction.serialize w'
           = (Buffer.toString_hex <$> marshalBinary envelope, w')
           /\ (forall bytes text,
                 marshalBinary envelope = Return bytes ->
                 (Transaction.serialize w').1 = Return text ->
                 Buffer.lower_hex_text text = true
                 /\ Buffer.from_hex text = bytes
                 /\ String.length text = (2 * List.length bytes)%nat)
       end.
Proof.
  intros Hsign w' privKeyBuf. subst w'.
  destruct (decide (privateKey = EmptyString)) as [->|Hkey];
    [discriminate Hsign|].
  rewrite (sign_paths w privateKey m Hkey) in Hsign |- *.
  fold privKeyBuf in Hsign |- *.
  destruct (Transaction.getSignBytes m w).1 as [signBytes|e];
    [|discriminate Hsign].
  destruct (generateSignature _ _) as [signature|e] eqn:Hsig;
    [|discriminate Hsign].
  cbv zeta in Hsign |- *.
  destruct (generatePubKey _) as [pubKey|e] eqn:Hpub; [|discriminate Hsign].
  destruct (Transaction._serializePubKey _) as [pubKeyBuf|e] eqn:Hbuf;
    [|discriminate Hsign].
  exists signBytes, signature, pubKey, pubKeyBuf.
  split; [reflexivity|]. split; [exact Hsig|]. split; [reflexivity|].
  split; [exact Hbuf|].
  cbn [snd]. rewrite serialize_unfold.
  unfold Built.serialized, Built.stdTx, Built.with_signatures, Built.entry.
  cbn [Transaction.this Transaction.msg Transaction.signatures
       Transaction.memo Transaction.source].
  destruct (getMsg _) as [wire|e]; [|reflexivity].
  unfold mbind, completion_bind, mret, completion_ret. cbn [fst].
  split; [destruct (marshalBinary _); reflexivity|].
  intros bytes text ->. intros [= <-].
  repeat apply conj;
    [apply toString_hex_lower|apply from_hex_toString_hex|apply toString_hex_length].
Qed.

Lemma run_keeps (cs : list Client.call) w :
  let o := Transaction.this w in
  let o' := Transaction.this (Client.run cs w) in
  Transaction.chain_id o' = Transaction.chain_id o
  /\ Transaction.msg o' = Transaction.msg o
  /\ Transaction.memo o' = Transaction.memo o
  /\ Transaction.source o' = Transaction.source o
  /\ Transaction.account_number o' = Transaction.account_number o
  /\ Transaction.sequence o' = Transaction.sequence o
  /\ (signatures_match o -> signatures_match o').
Proof.
  revert w. induction cs as [|c cs IH]; intros w; [cbn; intuition|].
  change (Client.run (c :: cs) w) with (Client.run cs (Client.perform c w)).
  specialize (IH (Client.perform c w)). cbv zeta in IH |- *.
  destruct IH as (H1 & H2 & H3 & H4 & H5 & H6 & H7).
  rewrite H1, H2, H3, H4, H5, H6.
  destruct (perform_this_entry c w) as [Heq | (b & s & Heq)]; rewrite Heq in *.
  - intuition.
  - cbn. repeat apply conj; try reflexivity.
    intros _. apply H7. constructor; [split; reflexivity|constructor].
Qed.

(** X3: whatever calls follow the construction, the chain id, the
    message, the memo, the source, the account number and the sequence
    stay what the constructor made them, every signature held carries the
    account number and the sequence of the transaction, and the sign bytes
    stay those of the fresh transaction. *)
Theorem session_keeps_fields (data : option (StdSignMsg.t Wire))
    (cs : list Client.call) w' :
  Client.session data cs = Return w' ->
  exists o,
    Transaction.constructor data = Return o
    /\ Transaction.chain_id (Transaction.this w') = Transaction.chain_id o
    /\ Transaction.msg (Transaction.this w') = Transaction.msg o
    /\ Transaction.memo (Transaction.this w') = Transaction.memo o
    /\ Transaction.source (Transaction.this w') = Transaction.source o
    /\ Transaction.account_number (Transaction.this w')
       = Transaction.account_number o
    /\ Transaction.sequence (Transaction.this w') = Transaction.sequence o
    /\ signatures_match (Transaction.this w')
    /\ (forall m, (Transaction.getSignBytes m w').1
                  = (Transaction.getSignBytes m
                       {| Transaction.this := o; Transaction.events := [] |}).1).
Proof.
  unfold Client.session. intros Hsession.
  pose proof (constructor_returns data) as Hfields.
  destruct (Transaction.constructor data) as [o|e]; [|discriminate].
  cbn in Hsession. injection Hsession as <-.
  destruct (Hfields o eq_refl) as (_ & _ & _ & _ & _ & _ & Hsig).
  exists o. split; [reflexivity|].
  destruct (run_keeps cs {| Transaction.this := o; Transaction.events := [] |})
    as (H1 & H2 & H3 & H4 & H5 & H6 & H7).
  cbn [Transaction.this] in *.
  repeat apply conj; try assumption.
  - apply H7. unfold signatures_match. rewrite Hsig. constructor.
  - intros m. apply getSignBytes_fields. cbn [Transaction.this].
    unfold Transaction.signMsg. now rewrite H1, H2, H3, H4, H5, H6.
Qed.

(** X4: signing again with the same key and message changes nothing
    more: the second [sign] ends as the first did and leaves the
    transaction as the first left it. *)
Theorem sign_twice w (privateKey : string) (m : option jsval) :
  let w1 := (Transaction.sign privateKey m w).2 in
  (Transaction.sign privateKey m w1).1 = (Transaction.sign privateKey m w).1
  /\ Transaction.this (Transaction.sign privateKey m w1).2 = Transaction.this w1.
Proof.
  intros w1.
  destruct (decide (privateKey = EmptyString)) as [->|Hkey];
    [split; reflexivity|].
  assert (Transaction.signMsg (Transaction.this w1)
            (js_or m (getSignMsg (Transaction.msg (Transaction.this w1))))
          = Transaction.signMsg (Transaction.this w)
              (js_or m (getSignMsg (Transaction.msg (Transaction.this w)))))
    as Hfields.
  { destruct (sign_this w privateKey m) as [Hthis | (b & sg & Hthis)];
      fold w1 in Hthis; now rewrite Hthis. }
  pose proof (sign_paths w1 privateKey m Hkey) as Hsecond.
  rewrite (getSignBytes_fields w1 w m Hfields) in Hsecond.
  pose proof (sign_paths w privateKey m Hkey) as Hfirst.
  cbv zeta in Hfirst, Hsecond. subst w1.
  destruct (Transaction.getSignBytes m w).1 as [signBytes|e].
  2:{ rewrite Hsecond, Hfirst. split; reflexivity. }
  destruct (generateSignature _ _) as [signature|e].
  2:{ rewrite Hsecond, Hfirst. split; reflexivity. }
  destruct (generatePubKey _) as [pubKey|e].
  2:{ rewrite Hsecond, Hfirst. split; reflexivity. }
  destruct (Transaction._serializePubKey _) as [pubKeyBuf|e];
    rewrite Hsecond, Hfirst; split; reflexivity.
Qed.

End Composition.

(* ================================================================== *)
(** * The facts above, on concrete inputs                               *)
(* ================================================================== *)


Lemma getSignMsg_repeatable_witness :
  let first := SendMsg.getSignMsg Fixture.two_outputs Fixture.coins in
  let second := SendMsg.getSignMsg Fixture.two_outputs first.2 in
  exists inputs1 inputs2 : list ref,
    SignedSend.inputs second.1
    = [ {| SignInputOutput.address := "me";
           SignInputOutput.coins := inputs2 |} ]
    /\ deref second.2 inputs2 = deref first.2 inputs1
    /\ deref second.2 inputs1 = deref first.2 inputs1.
Proof.
  destruct (getSignMsg_repeatable Fixture.two_outputs Fixture.coins)
    as (inputs1 & inputs2 & _ & H2 & _ & Hsame & Hkept & _).
  - repeat constructor; eexists; reflexivity.
  - repeat constructor; vm_compute; repeat split.
  - exists inputs1, inputs2. repeat apply conj; assumption.
Defined.

Lemma getSignMsg_balances_witness :
  exists inputsCoins : list ref,
    SignedSend.inputs (SendMsg.getSignMsg Fixture.two_outputs Fixture.coins).1
    = [ {| SignInputOutput.address := "me";
           SignInputOutput.coins := inputsCoins |} ]
    /\ grand_total
         (deref (SendMsg.getSignMsg Fixture.two_outputs Fixture.coins).2
            inputsCoins)
       = 27.
Proof.
  destruct (getSignMsg_balances Fixture.two_outputs Fixture.coins)
    as (inputsCoins & Hin & Hsum & Hout).
  - repeat constructor; eexists; reflexivity.
  - vm_compute. discriminate.
  - exists inputsCoins. split; [exact Hin|]. rewrite Hsum, Hout. reflexivity.
Defined.

Lemma getMsg_agrees_with_getSignMsg_witness :
  (SendWire.getMsg (codec := Sample.text_codec)
     Fixture.two_outputs Fixture.coins).2
  = (SendMsg.getSignMsg Fixture.two_outputs Fixture.coins).2.
Proof.
  refine (proj1 (getMsg_agrees_with_getSignMsg (codec := Sample.text_codec)
            Fixture.two_outputs Fixture.coins Sample.two_outputs_wire _)).
  reflexivity.
Defined.


(** With a signer that refuses the key, [sign] ends with the signer's
    error, after the one call, and attaches nothing. *)
Lemma sign_refused_key :
  Transaction.sign (signer := Sample.strict) "0a" None Fixture.fresh
  = (Throw (TypeError "Expected Private"),
     {| Transaction.this := Fixture.test_chain_tx;
        Transaction.events :=
          [Transaction.Call_generateSignature Fixture.expected_hex [x0a]] |}).
Proof. vm_compute. reflexivity. Qed.

(** With a message whose wire form cannot be made, [serialize] ends with
    the error of the message, signed or not. *)
Lemma serialize_without_wire (sigs : list StdSignature.t) :
  let w :=
    {| Transaction.this :=
         {| Transaction.sequence := 5;
            Transaction.account_number := 1;
            Transaction.chain_id := "test-chain";
            Transaction.msg := Sample.no_wire;
            Transaction.memo := Some EmptyString;
            Transaction.source := 0;
            Transaction.signatures := sigs |};
       Transaction.events := [] |} in
  Transaction.serialize (renderer := Fixture.count_signatures) w
  = (Throw (Error "bad address"), w).
Proof. reflexivity. Qed.

Lemma sign_then_serialize_witness :
  (Transaction.serialize (renderer := Fixture.count_signatures)
     (Transaction.sign (signer := Fixture.echo) "0a" None Fixture.fresh).2).1
  = Return "01".
Proof.
  destruct (sign_then_serialize (renderer := Fixture.count_signatures)
              (signer := Fixture.echo) Fixture.fresh "0a" None)
    as (signBytes & signature & pubKey & pubKeyBuf & _ & _ & _ & _ & Hser).
  - reflexivity.
  - destruct Hser as [Hser _]. rewrite Hser. reflexivity.
Defined.

Lemma session_keeps_fields_witness :
  exists w',
    Client.session (renderer := Fixture.count_signatures)
      (signer := Fixture.echo)
      (Some (Fixture.test_chain (Some EmptyString)))
      [Client.Sign "0a" None; Client.Serialize] = Return w'
    /\ Transaction.sequence (Transaction.this w') = 5
    /\ signatures_match (Transaction.this w').
Proof.
  eexists. split; [reflexivity|].
  destruct (session_keeps_fields (renderer := Fixture.count_signatures)
              (signer := Fixture.echo)
              (Some (Fixture.test_chain (Some EmptyString)))
              [Client.Sign "0a" None; Client.Serialize] _ eq_refl)
    as (o & Ho & _ & _ & _ & _ & _ & Hseq & Hmatch & _).
  split; [|exact Hmatch]. rewrite Hseq. injection Ho as <-. reflexivity.
Defined.
